(** * PLASMA tile kernels: band-to-tile conversion, the TSLQT tile kernel and
      the [zstevx2] test driver.

    The C sources are embedded shallowly.  C [int] (and [lapack_int]) values
    are integers of [Z]; signed overflow is undefined behaviour in C, so the
    model describes the executions in which no intermediate value leaves the
    range of [int].  The one place where the values are largest, the offset
    into the band buffer ([bandA]), is computed as a 32-bit [int] computes
    it, with the wrap-around written out.  Integer division is C's
    (truncation towards zero, [Z.quot]).  Counted [for] loops whose bounds the body does not touch are
    folds over the list of the indices they visit; the other loops carry
    fuel and report when it runs out. *)

From Stdlib Require Import ZArith List Lia Bool Ascii String.
From Stdlib Require Import Reals Lra Floats.
From Stdlib Require FinFun.
Import ListNotations.
Local Open Scope Z_scope.

(** ** Shared helpers *)

(** Modelled from the spec: [imax] and [imin] (plasma_internal.h is not
    among the sources); the specification writes them max and min. *)
Definition imax (a b : Z) : Z := if a >? b then a else b.
Definition imin (a b : Z) : Z := if a <? b then a else b.

(** The indices visited by [for (i = lo; i < hi; i++)]. *)
Definition zrange (lo hi : Z) : list Z :=
  map (fun k => lo + Z.of_nat k) (seq 0 (Z.to_nat (hi - lo))).

Lemma imax_max a b : imax a b = Z.max a b.
Proof. unfold imax. destruct (Z.gtb_spec a b); lia. Qed.

Lemma imin_min a b : imin a b = Z.min a b.
Proof. unfold imin. destruct (Z.ltb_spec a b); lia. Qed.

Lemma in_zrange lo hi i : In i (zrange lo hi) <-> lo <= i < hi.
Proof.
  unfold zrange. rewrite in_map_iff. split.
  - intros (k & <- & Hk). apply in_seq in Hk. lia.
  - intros H. exists (Z.to_nat (i - lo)). split; [lia|].
    apply in_seq. lia.
Qed.

Lemma zrange_nil lo hi : hi <= lo -> zrange lo hi = [].
Proof.
  intros H. unfold zrange. replace (Z.to_nat (hi - lo)) with 0%nat by lia.
  reflexivity.
Qed.

Lemma zrange_cons lo hi : lo < hi -> zrange lo hi = lo :: zrange (lo + 1) hi.
Proof.
  intros H. unfold zrange.
  replace (Z.to_nat (hi - lo)) with (S (Z.to_nat (hi - (lo + 1)))) by lia.
  cbn [seq map]. f_equal; [lia|].
  rewrite <- seq_shift, map_map. apply map_ext. intros k. lia.
Qed.

Lemma zrange_snoc lo hi : lo <= hi -> zrange lo (hi + 1) = zrange lo hi ++ [hi].
Proof.
  intros H. unfold zrange.
  replace (Z.to_nat (hi + 1 - lo)) with (Z.to_nat (hi - lo) + 1)%nat by lia.
  rewrite seq_app, map_app. cbn [seq map]. do 2 f_equal. lia.
Qed.

(** ** Band storage to tile layout: compute/pzpb2desc.c *)

Module Pzpb2desc.

(** Modelled from the spec: the shape tag [A.uplo] of a descriptor (the
    declarations of plasma_types.h are not among the sources), "uplo/shape
    tag (general, upper, lower)". *)
Inductive plasma_uplo : Type := PlasmaGeneral | PlasmaUpper | PlasmaLower.

(** Modelled from the spec: the fields of [plasma_desc_t] that the converter
    reads (plasma_descriptor.h is not among the sources): the matrix
    dimensions, the tile dimensions, the band widths and the number of tile
    columns. *)
Record plasma_desc_t : Type := mk_desc {
  uplo : plasma_uplo;
  m : Z;    (* rows of the matrix *)
  n : Z;    (* columns of the matrix *)
  mb : Z;   (* rows of a tile *)
  nb : Z;   (* columns of a tile *)
  kl : Z;   (* lower bandwidth *)
  ku : Z;   (* upper bandwidth *)
  nt : Z    (* number of tile columns *)
}.

Record plasma_sequence_t : Type := mk_sequence { seq_status : Z }.
Record plasma_request_t : Type := mk_request { req_status : Z }.

(** One call of [core_omp_zlacpy_lapack2tile_band], argument by argument. *)
Record copy_task : Type := mk_task {
  t_uplo : plasma_uplo;
  t_m : Z;       (* tile row *)
  t_n : Z;       (* tile column *)
  t_mb : Z;      (* rows of the tile that are copied *)
  t_nb : Z;      (* columns of the tile that are copied *)
  t_MB : Z;      (* A.mb *)
  t_kl : Z;
  t_ku : Z;
  t_src : Z;     (* bandA(m, n), as an offset into pA *)
  t_lda : Z;     (* lda-1 *)
  t_dst : Z;     (* tileA(m, n) *)
  t_ldd : Z      (* BLKLDD_BAND(A.uplo, A, m, n) *)
}.

(** The value a 32-bit two's complement [int] holds after an operation whose
    exact result is [z].  C leaves the overflow of a signed operation
    undefined; the usual compilers wrap, and where nothing overflows the
    value is [z] under either reading. *)
Definition int_wrap (z : Z) : Z :=
  (z + 2147483648) mod 4294967296 - 2147483648.

Definition int_add (a b : Z) : Z := int_wrap (a + b).
Definition int_sub (a b : Z) : Z := int_wrap (a - b).
Definition int_mul (a b : Z) : Z := int_wrap (a * b).


Section Converter.

(** plasma_descriptor.h and plasma_types.h are not among the sources: the
    tile address, the leading dimension of a band tile and the two status
    codes are parameters. *)
Variable plasma_tile_addr : plasma_desc_t -> Z -> Z -> Z.
Variable BLKLDD_BAND : plasma_uplo -> plasma_desc_t -> Z -> Z -> Z.
Variable PlasmaSuccess : Z.
Variable PlasmaErrorSequence : Z.

(** Modelled from the spec: [plasma_request_fail] (the sequence and request
    bookkeeping is not among the sources).  The spec describes the status
    channel as
    "a mutable shared status cell (Success / error code) plus a request
    object recording the first failure's kind and location; read before
    starting new work, written on first failure, never reset mid-operation":
    the cell takes the code when it still reports success and keeps what it
    holds otherwise; the request records the code it is failed with. *)
Definition plasma_request_fail (sequence : plasma_sequence_t)
    (request : plasma_request_t) (status : Z)
    : plasma_sequence_t * plasma_request_t :=
  (if seq_status sequence =? PlasmaSuccess
   then mk_sequence status else sequence,
   mk_request status).

(** [#define bandA(m, n)]: the offset into [pA], an [int] expression over
    [int] operands, operation by operation. *)
Definition bandA (lda : Z) (A : plasma_desc_t) (m n : Z) : Z :=
  int_add
    (int_add (int_mul lda (int_mul (nb A) n))
             (match uplo A with PlasmaUpper => ku A | _ => 0 end))
    (int_mul (mb A) (int_sub m n)).

(** [#define tileA(m, n)]. *)
Definition tileA (A : plasma_desc_t) (m n : Z) : Z := plasma_tile_addr A m n.

(** [m_start] and [m_end] of tile column [n]. *)
Definition m_start (A : plasma_desc_t) (n : Z) : Z :=
  match uplo A with
  | PlasmaGeneral => Z.quot (imax 0 (n * nb A - ku A - kl A)) (nb A)
  | PlasmaUpper => Z.quot (imax 0 (n * nb A - ku A)) (nb A)
  | PlasmaLower => Z.quot (imax 0 (n * nb A)) (nb A)
  end.

Definition m_end (A : plasma_desc_t) (n : Z) : Z :=
  match uplo A with
  | PlasmaGeneral => Z.quot (imin (m A - 1) ((n + 1) * nb A + kl A - 1)) (nb A)
  | PlasmaUpper => Z.quot (imin (m A - 1) ((n + 1) * nb A - 1)) (nb A)
  | PlasmaLower => Z.quot (imin (m A - 1) ((n + 1) * nb A + kl A - 1)) (nb A)
  end.

(** The body of the inner loop: the task submitted for tile [(m, n)]. *)
Definition submit (lda : Z) (A : plasma_desc_t) (m n : Z) : copy_task :=
  let mb' := imin (mb A) (Pzpb2desc.m A - m * mb A) in
  let nb' := imin (nb A) (Pzpb2desc.n A - n * nb A) in
  mk_task (uplo A) m n mb' nb' (mb A) (kl A) (ku A)
          (bandA lda A m n) (lda - 1)
          (tileA A m n) (BLKLDD_BAND (uplo A) A m n).

(** [for (m = m_start; m <= m_end; m++)]: the queue of submitted tasks grows
    at its end. *)
Definition column_tasks (lda : Z) (A : plasma_desc_t) (n : Z)
    (queue : list copy_task) : list copy_task :=
  fold_left (fun q m => q ++ [submit lda A m n])
            (zrange (m_start A n) (m_end A n + 1)) queue.

(** [plasma_pzpb2desc]: the tasks submitted, and the sequence and the request
    as the call leaves them. *)
Definition plasma_pzpb2desc (lda : Z) (A : plasma_desc_t)
    (sequence : plasma_sequence_t) (request : plasma_request_t)
    : list copy_task * plasma_sequence_t * plasma_request_t :=
  if negb (seq_status sequence =? PlasmaSuccess) then
    let (sequence', request') :=
      plasma_request_fail sequence request PlasmaErrorSequence in
    ([], sequence', request')
  else
    (fold_left (fun q n => column_tasks lda A n q) (zrange 0 (nt A)) [],
     sequence, request).

Definition submitted (lda : Z) (A : plasma_desc_t)
    (sequence : plasma_sequence_t) (request : plasma_request_t)
    : list copy_task :=
  fst (fst (plasma_pzpb2desc lda A sequence request)).

(** The scheduler runs the submitted tasks; whatever a copy does to the
    destination tiles, the tiles change through tasks only. *)
Definition run_tasks {tiles : Type} (copy : copy_task -> tiles -> tiles)
    (q : list copy_task) (t : tiles) : tiles :=
  fold_left (fun t k => copy k t) q t.

(** *** What the specification says of the converter *)

(** The row range of tile column [n], in the words of the specification
    (NB, KL, KU and M are the descriptor's [nb], [kl], [ku] and [m]). *)
Definition spec_m_start (A : plasma_desc_t) (n : Z) : Z :=
  match uplo A with
  | PlasmaGeneral => Z.quot (Z.max 0 (n * nb A - ku A - kl A)) (nb A)
  | PlasmaUpper => Z.quot (Z.max 0 (n * nb A - ku A)) (nb A)
  | PlasmaLower => n
  end.


(** The offset of tile [(m, n)] in the band buffer, in the words of the
    specification. *)
Definition spec_band_offset (stride : Z) (A : plasma_desc_t) (m n : Z) : Z :=
  stride * (nb A * n)
  + (match uplo A with PlasmaUpper => ku A | _ => 0 end)
  + mb A * (m - n).



(** *** Properties *)

Lemma column_tasks_app lda A n q :
  column_tasks lda A n q =
  q ++ map (fun m => submit lda A m n) (zrange (m_start A n) (m_end A n + 1)).
Proof.
  unfold column_tasks.
  generalize (zrange (m_start A n) (m_end A n + 1)) as l. intros l.
  revert q. induction l as [|x l IH]; intros q; cbn [fold_left map].
  - now rewrite app_nil_r.
  - rewrite IH, <- app_assoc. reflexivity.
Qed.

Lemma submitted_flat_map lda A sequence request :
  seq_status sequence = PlasmaSuccess ->
  submitted lda A sequence request =
  flat_map (fun n => map (fun m => submit lda A m n)
                         (zrange (m_start A n) (m_end A n + 1)))
           (zrange 0 (nt A)).
Proof.
  intros Hs. unfold submitted, plasma_pzpb2desc.
  rewrite Hs, Z.eqb_refl. cbn [negb fst].
  generalize (zrange 0 (nt A)) as l. intros l.
  rewrite <- (app_nil_l (flat_map _ l)).
  generalize (@nil copy_task) as q. revert l.
  induction l as [|x l IH]; intros q; cbn [fold_left flat_map].
  - now rewrite app_nil_r.
  - rewrite IH, column_tasks_app, <- app_assoc. reflexivity.
Qed.

Lemma submitted_failed lda A sequence request :
  seq_status sequence <> PlasmaSuccess ->
  submitted lda A sequence request = [].
Proof.
  intros Hs. unfold submitted, plasma_pzpb2desc.
  apply Z.eqb_neq in Hs. rewrite Hs. reflexivity.
Qed.

Lemma in_submitted lda A sequence request t :
  seq_status sequence = PlasmaSuccess ->
  In t (submitted lda A sequence request) <->
  exists n m, 0 <= n < nt A /\ m_start A n <= m <= m_end A n /\
              t = submit lda A m n.
Proof.
  intros Hs. rewrite (submitted_flat_map _ _ _ _ Hs), in_flat_map. split.
  - intros (n & Hn & Hin). apply in_map_iff in Hin.
    destruct Hin as (m & <- & Hm).
    apply in_zrange in Hn. apply in_zrange in Hm.
    exists n, m. repeat split; lia.
  - intros (n & m & Hn & Hm & ->). exists n. split.
    + apply in_zrange. lia.
    + apply in_map_iff. exists m. split; [reflexivity|].
      apply in_zrange. lia.
Qed.

Lemma m_start_spec A n : 0 < nb A -> 0 <= n -> m_start A n = spec_m_start A n.
Proof.
  intros Hnb Hn. unfold m_start, spec_m_start.
  destruct (uplo A); rewrite imax_max; try reflexivity.
  rewrite Z.max_r by nia. apply Z.quot_mul. lia.
Qed.



(** C4: on a sequence whose status is not [PlasmaSuccess] the converter
    submits no task, so the destination tiles stay as they are whatever a
    copy task does, and the status of the sequence is the one it had. *)
Theorem pzpb2desc_failed_sequence lda A sequence request :
  seq_status sequence <> PlasmaSuccess ->
  submitted lda A sequence request = []
  /\ (forall (tiles : Type) (copy : copy_task -> tiles -> tiles) (t : tiles),
        run_tasks copy (submitted lda A sequence request) t = t)
  /\ seq_status (snd (fst (plasma_pzpb2desc lda A sequence request)))
     = seq_status sequence.
Proof.
  intros Hs. split; [|split].
  - now apply submitted_failed.
  - intros tiles copy t. now rewrite submitted_failed.
  - unfold plasma_pzpb2desc, plasma_request_fail.
    apply Z.eqb_neq in Hs. rewrite Hs. reflexivity.
Qed.




End Converter.

(** A 10 by 10 lower band matrix in 4 by 4 tiles, on a healthy sequence and
    on a failed one (0 stands for [PlasmaSuccess], -7 for
    [PlasmaErrorSequence] and -4 for the code of an earlier failure). *)
Definition desc_example : plasma_desc_t :=
  mk_desc PlasmaLower 10 10 4 4 2 0 3.

Example submitted_example :
  map (fun t => (t_m t, t_n t, t_mb t, t_nb t, t_src t))
      (submitted (fun _ _ _ => 0) (fun _ _ _ _ => 0) 0 (-7) 3 desc_example
                 (mk_sequence 0) (mk_request 0))
  = [(0, 0, 4, 4, 0); (1, 0, 4, 4, 4); (1, 1, 4, 4, 12); (2, 1, 2, 4, 16);
     (2, 2, 2, 2, 24)].
Proof. reflexivity. Qed.


Lemma pzpb2desc_failed_sequence_witness :
  submitted (fun _ _ _ => 0) (fun _ _ _ _ => 0) 0 (-7) 3 desc_example
            (mk_sequence (-4)) (mk_request 0) = []
  /\ (forall (tiles : Type) (copy : copy_task -> tiles -> tiles) (t : tiles),
        run_tasks copy
          (submitted (fun _ _ _ => 0) (fun _ _ _ _ => 0) 0 (-7) 3 desc_example
                     (mk_sequence (-4)) (mk_request 0)) t = t)
  /\ seq_status (snd (fst (plasma_pzpb2desc (fun _ _ _ => 0)
                             (fun _ _ _ _ => 0) 0 (-7) 3 desc_example
                             (mk_sequence (-4)) (mk_request 0))))
     = -4.
Proof.
  apply (pzpb2desc_failed_sequence (fun _ _ _ => 0) (fun _ _ _ _ => 0) 0 (-7)
           3 desc_example (mk_sequence (-4)) (mk_request 0)).
  discriminate.
Defined.


(** A lower band matrix of order 716288 with 3000 diagonals below the main
    one, in 256 by 256 tiles, stored with stride 3001: the converter
    addresses tile (2797, 2797), whose offset 3001*(256*2797) = 2148812032
    is above the largest [int]; the [int] computation leaves -2146155264. *)
Definition desc_large : plasma_desc_t :=
  mk_desc PlasmaLower 716288 716288 256 256 3000 0 2798.

Example bandA_large :
  bandA 3001 desc_large 2797 2797 = -2146155264
  /\ spec_band_offset 3001 desc_large 2797 2797 = 2148812032.
Proof. split; reflexivity. Qed.


(** *** More on the tasks of the converter *)

Section ConverterTasks.

Variable plasma_tile_addr : plasma_desc_t -> Z -> Z -> Z.
Variable BLKLDD_BAND : plasma_uplo -> plasma_desc_t -> Z -> Z -> Z.
Variable PlasmaSuccess : Z.
Variable PlasmaErrorSequence : Z.

Local Abbreviation submitted :=
  (submitted plasma_tile_addr BLKLDD_BAND PlasmaSuccess PlasmaErrorSequence).

Lemma NoDup_zrange lo hi : NoDup (zrange lo hi).
Proof.
  unfold zrange. apply Finite.Injective_map_NoDup; [|apply seq_NoDup].
  intros a b H. lia.
Qed.

Lemma NoDup_tiles (rows : Z -> list Z) (cols : list Z) :
  NoDup cols -> (forall n, NoDup (rows n)) ->
  NoDup (flat_map (fun n => map (fun m => (m, n)) (rows n)) cols).
Proof.
  intros Hc Hr. induction Hc as [|n cols Hn Hc IH]; cbn [flat_map].
  - constructor.
  - apply NoDup_app.
    + apply Finite.Injective_map_NoDup; [|apply Hr].
      intros a b H. now injection H.
    + exact IH.
    + intros [m0 n0] H1 H2. apply in_map_iff in H1.
      destruct H1 as (m1 & [= <- <-] & _).
      apply in_flat_map in H2. destruct H2 as (n1 & Hn1 & H2).
      apply in_map_iff in H2. destruct H2 as (m2 & [= _ <-] & _).
      contradiction.
Qed.

(** No tile is handed to two copy tasks: the pairs of tile row and tile
    column of the submitted tasks are all different. *)
Theorem pzpb2desc_tiles_once lda A sequence request :
  NoDup (map (fun t => (t_m t, t_n t)) (submitted lda A sequence request)).
Proof.
  destruct (Z.eq_dec (seq_status sequence) PlasmaSuccess) as [Hs|Hs].
  - rewrite (submitted_flat_map _ _ _ _ _ _ _ _ Hs).
    rewrite flat_map_concat_map, concat_map, map_map, <- flat_map_concat_map.
    erewrite flat_map_ext.
    + apply (NoDup_tiles (fun n => zrange (m_start A n) (m_end A n + 1))).
      * apply NoDup_zrange.
      * intros n0. apply NoDup_zrange.
    + intros n0. rewrite map_map. reflexivity.
  - rewrite submitted_failed by assumption. constructor.
Qed.

(** With [nb > 0]: the tasks of an upper band descriptor are for tiles on or
    above the diagonal of the tile grid, those of a lower band descriptor
    for tiles on or below it. *)
Theorem pzpb2desc_triangle lda A sequence request t :
  0 < nb A ->
  In t (submitted lda A sequence request) ->
  (uplo A = PlasmaUpper -> t_m t <= t_n t)
  /\ (uplo A = PlasmaLower -> t_n t <= t_m t).
Proof.
  intros Hnb Hin.
  destruct (Z.eq_dec (seq_status sequence) PlasmaSuccess) as [Hs|Hs].
  2: { rewrite submitted_failed in Hin by assumption. destruct Hin. }
  apply (in_submitted _ _ _ _ _ _ _ _ _ Hs) in Hin.
  destruct Hin as (n0 & m0 & Hn & Hm & ->). cbn [submit t_m t_n]. split.
  - intros Hu. unfold m_end in Hm. rewrite Hu, imin_min in Hm.
    assert (Z.quot (Z.min (m A - 1) ((n0 + 1) * nb A - 1)) (nb A)
            <= Z.quot ((n0 + 1) * nb A - 1) (nb A)) as H1
      by (apply Z.quot_le_mono; lia).
    assert (n0 = Z.quot ((n0 + 1) * nb A - 1) (nb A)) as H2
      by (apply Z.quot_unique with (nb A - 1); nia).
    lia.
  - intros Hl. rewrite (m_start_spec A n0 Hnb) in Hm by lia.
    unfold spec_m_start in Hm. rewrite Hl in Hm. lia.
Qed.

(** On a descriptor with square tiles ([mb = nb > 0]), at least one row
    ([m >= 1]) and a last tile column that starts inside the matrix
    ([(nt-1)*nb < n]), every task copies a block that is not empty and fits
    in a tile: between 1 and [mb] rows, between 1 and [nb] columns, of a tile
    whose first row is a row of the matrix. *)
Theorem pzpb2desc_block_not_empty lda A sequence request t :
  0 < nb A -> mb A = nb A -> 1 <= m A -> (nt A - 1) * nb A < n A ->
  In t (submitted lda A sequence request) ->
  1 <= t_mb t <= mb A
  /\ 1 <= t_nb t <= nb A
  /\ 0 <= t_m t * mb A < m A
  /\ 0 <= t_n t < nt A.
Proof.
  intros Hnb Hmb Hm1 Hnt Hin.
  destruct (Z.eq_dec (seq_status sequence) PlasmaSuccess) as [Hs|Hs].
  2: { rewrite submitted_failed in Hin by assumption. destruct Hin. }
  apply (in_submitted _ _ _ _ _ _ _ _ _ Hs) in Hin.
  destruct Hin as (n0 & m0 & Hn & Hm & ->).
  cbn [submit t_m t_n t_mb t_nb]. rewrite !imin_min.
  assert (H0 : 0 <= m0).
  { assert (0 <= m_start A n0); [|lia].
    unfold m_start. destruct (uplo A); rewrite imax_max;
      apply Z.quot_pos; lia. }
  assert (H1 : m0 * nb A <= m A - 1).
  { assert (m_end A n0 <= Z.quot (m A - 1) (nb A)) as Hq.
    { unfold m_end. destruct (uplo A); rewrite imin_min;
        apply Z.quot_le_mono; lia. }
    pose proof (Z.mul_quot_le (m A - 1) (nb A)). nia. }
  rewrite Hmb. split; [|split; [|split]]; try lia; nia.
Qed.

End ConverterTasks.

(** The example descriptor meets the conditions above. *)
Lemma pzpb2desc_triangle_witness :
  let t := mk_task PlasmaLower 2 1 2 4 4 2 0 16 2 0 0 in
  (uplo desc_example = PlasmaUpper -> t_m t <= t_n t)
  /\ (uplo desc_example = PlasmaLower -> t_n t <= t_m t).
Proof.
  apply (pzpb2desc_triangle (fun _ _ _ => 0) (fun _ _ _ _ => 0) 0 (-7) 3
           desc_example (mk_sequence 0) (mk_request 0)
           (mk_task PlasmaLower 2 1 2 4 4 2 0 16 2 0 0)).
  - reflexivity.
  - vm_compute. tauto.
Defined.

Lemma pzpb2desc_block_not_empty_witness :
  let t := mk_task PlasmaLower 2 2 2 2 4 2 0 24 2 0 0 in
  1 <= t_mb t <= mb desc_example
  /\ 1 <= t_nb t <= nb desc_example
  /\ 0 <= t_m t * mb desc_example < m desc_example
  /\ 0 <= t_n t < nt desc_example.
Proof.
  apply (pzpb2desc_block_not_empty (fun _ _ _ => 0) (fun _ _ _ _ => 0) 0 (-7)
           3 desc_example (mk_sequence 0) (mk_request 0)
           (mk_task PlasmaLower 2 2 2 2 4 2 0 24 2 0 0)).
  - reflexivity.
  - reflexivity.
  - discriminate.
  - reflexivity.
  - vm_compute. tauto.
Defined.

End Pzpb2desc.

(** ** The TSLQT tile kernel: [CORE_ztslqt] and its task wrapper *)

Module Tslqt.

(** The arrays the kernel is handed; [&B[k]] is the pair of [B] and [k]. *)
Inductive buffer : Type := A1 | A2 | T | TAU | WORK.

Record ptr : Type := addr { buf : buffer; off : Z }.

(** The scalars passed through [CBLAS_SADDR]. *)
Inductive scalar : Type := zone | zzero | alpha.

(** The BLAS and LAPACK routines are external: the kernel is the sequence of
    calls it makes and of the two assignments of its own.  The flags that are
    the same constant at every call site (column-major layout, no
    transposition, upper and non-unit for [ztrmv], right side and conjugate
    transposition for [CORE_ztsmlq]) are left out of the records. *)
Inductive call : Type :=
| LAPACKE_zlacgv_work (n : Z) (x : ptr) (incx : Z)
| LAPACKE_zlarfg_work (n : Z) (a : ptr) (x : ptr) (incx : Z) (tau : ptr)
| assign_alpha (tau : ptr)                       (* alpha = -(TAU[ii+i]) *)
| cblas_zcopy (n : Z) (x : ptr) (incx : Z) (y : ptr) (incy : Z)
| cblas_zgemv (m n : Z) (al : scalar) (a : ptr) (lda : Z)
              (x : ptr) (incx : Z) (be : scalar) (y : ptr) (incy : Z)
| cblas_zaxpy (n : Z) (al : scalar) (x : ptr) (incx : Z) (y : ptr) (incy : Z)
| cblas_zgerc (m n : Z) (al : scalar) (x : ptr) (incx : Z)
              (y : ptr) (incy : Z) (a : ptr) (lda : Z)
| cblas_ztrmv (n : Z) (a : ptr) (lda : Z) (x : ptr) (incx : Z)
| assign (dst src : ptr)                         (* T[..] = TAU[..] *)
| CORE_ztsmlq (m1 n1 m2 n2 k ib : Z) (a1 : ptr) (lda1 : Z) (a2 : ptr)
              (lda2 : Z) (v : ptr) (ldv : Z) (t : ptr) (ldt : Z)
              (work : ptr) (ldwork : Z)
| malloc (b : buffer) (elements : Z)
| free (b : buffer).

(** What a run leaves behind: the messages given to [plasma_error] and the
    calls made, both in order. *)
Record result : Type := mk_result {
  reported : list string;
  calls : list call
}.

(** The arrays a call or assignment is given. *)
Definition pointers (c : call) : list ptr :=
  match c with
  | LAPACKE_zlacgv_work _ x _ => [x]
  | LAPACKE_zlarfg_work _ a x _ tau => [a; x; tau]
  | assign_alpha tau => [tau]
  | cblas_zcopy _ x _ y _ => [x; y]
  | cblas_zgemv _ _ _ a _ x _ _ y _ => [a; x; y]
  | cblas_zaxpy _ _ x _ y _ => [x; y]
  | cblas_zgerc _ _ _ x _ y _ a _ => [x; y; a]
  | cblas_ztrmv _ a _ x _ => [a; x]
  | assign dst src => [dst; src]
  | CORE_ztsmlq _ _ _ _ _ _ a1 _ a2 _ v _ t _ work _ => [a1; a2; v; t; work]
  | malloc _ _ => []
  | free _ => []
  end.

Definition same_buffer (a b : buffer) : bool :=
  match a, b with
  | A1, A1 | A2, A2 | T, T | TAU, TAU | WORK, WORK => true
  | _, _ => false
  end.

(** [c] is given a pointer into [b]. *)
Definition names (b : buffer) (c : call) : bool :=
  existsb (fun p => same_buffer (buf p) b) (pointers c).

(** [c] is given an array that [malloc] did not provide. *)
Definition names_null (tau_ok work_ok : bool) (c : call) : bool :=
  (negb tau_ok && names TAU c) || (negb work_ok && names WORK c).

(** The calls before the first one that meets [null], and that one. *)
Fixpoint until_null (null : call -> bool) (cs : list call)
    : list call * option call :=
  match cs with
  | [] => ([], None)
  | c :: cs' =>
      if null c then ([], Some c)
      else let (before, hit) := until_null null cs' in (c :: before, hit)
  end.

(** How the task body ends: it runs to its end, or it reaches a call or an
    assignment [c] that names a null array, after the messages and calls of
    [r].  What a routine does with a null array, and what would follow, is
    outside the model. *)
Inductive task_outcome : Type :=
| Finished (r : result)
| NullReached (r : result) (c : call).

Section Kernel.

Variables m n ib lda1 lda2 ldt : Z.

(** The body of [for (i = 0; i < sb; i++)]. *)
Definition reflector (ii sb i : Z) : list call :=
  [ LAPACKE_zlacgv_work n (addr A2 (ii + i)) lda2;
    LAPACKE_zlacgv_work 1 (addr A1 (lda1 * (ii + i) + ii + i)) lda1;
    LAPACKE_zlarfg_work (n + 1) (addr A1 (lda1 * (ii + i) + ii + i))
                        (addr A2 (ii + i)) lda2 (addr TAU (ii + i));
    assign_alpha (addr TAU (ii + i)) ]
  ++ (if ii + i + 1 <? m then
        [ cblas_zcopy (sb - i - 1)
                      (addr A1 (lda1 * (ii + i) + (ii + i + 1))) 1
                      (addr WORK 0) 1;
          cblas_zgemv (sb - i - 1) n zone (addr A2 (ii + i + 1)) lda2
                      (addr A2 (ii + i)) lda2 zone (addr WORK 0) 1;
          cblas_zaxpy (sb - i - 1) alpha (addr WORK 0) 1
                      (addr A1 (lda1 * (ii + i) + ii + i + 1)) 1;
          cblas_zgerc (sb - i - 1) n alpha (addr WORK 0) 1
                      (addr A2 (ii + i)) lda2 (addr A2 (ii + i + 1)) lda2 ]
      else [])
  ++ [ cblas_zgemv i n alpha (addr A2 ii) lda2 (addr A2 (ii + i)) lda2
                   zzero (addr T (ldt * (ii + i))) 1;
       LAPACKE_zlacgv_work n (addr A2 (ii + i)) lda2;
       LAPACKE_zlacgv_work 1 (addr A1 (lda1 * (ii + i) + ii + i)) lda1;
       cblas_ztrmv i (addr T (ldt * ii)) ldt (addr T (ldt * (ii + i))) 1;
       assign (addr T (ldt * (ii + i) + i)) (addr TAU (ii + i)) ].

(** The body of [for (ii = 0; ii < m; ii += ib)]. *)
Definition block (ii : Z) : list call :=
  let sb := imin (m - ii) ib in
  flat_map (reflector ii sb) (zrange 0 sb)
  ++ (if m >? ii + sb then
        [ CORE_ztsmlq (m - (ii + sb)) sb (m - (ii + sb)) n ib ib
                      (addr A1 (lda1 * ii + ii + sb)) lda1
                      (addr A2 (ii + sb)) lda2
                      (addr A2 ii) lda2
                      (addr T (ldt * ii)) ldt
                      (addr WORK 0) lda1 ]
      else []).

(** [for (ii = 0; ii < m; ii += ib)], from [ii] on; [None] when the fuel is
    used up before the loop ends. *)
Fixpoint panel (fuel : nat) (ii : Z) : option (list call) :=
  match fuel with
  | O => None
  | S fuel' =>
      if ii <? m then
        match panel fuel' (ii + ib) with
        | Some rest => Some (block ii ++ rest)
        | None => None
        end
      else Some []
  end.

(** [CORE_ztslqt]; the loop is given [m + 1] rounds. *)
Definition CORE_ztslqt : option result :=
  if m <? 0 then Some (mk_result ["Illegal value of m"%string] [])
  else if n <? 0 then Some (mk_result ["Illegal value of n"%string] [])
  else if ib <? 0 then Some (mk_result ["Illegal value of ib"%string] [])
  else if (lda2 <? imax 1 m) && (m >? 0) then
    Some (mk_result ["Illegal value of lda2"%string] [])
  else if (m =? 0) || (n =? 0) || (ib =? 0) then Some (mk_result [] [])
  else
    match panel (S (Z.to_nat m)) 0 with
    | Some cs => Some (mk_result [] cs)
    | None => None
    end.

(** [CORE_OMP_ztslqt]: the task body allocates the two work arrays, reports
    an allocation that failed and goes on: the kernel is handed the pointers
    as [malloc] gave them, null when [tau_ok] or [work_ok] is false.  A run
    in which no call or assignment of the kernel names a null array goes on
    to the two calls of [free].  Otherwise the run is followed up to the
    first call or assignment that names a null array. *)
Definition CORE_OMP_ztslqt (nb : Z) (tau_ok work_ok : bool)
    : option task_outcome :=
  match CORE_ztslqt with
  | Some r =>
      let failed :=
        (if tau_ok then [] else ["malloc() failed"%string])
        ++ (if work_ok then [] else ["malloc() failed"%string]) in
      let allocs := [malloc TAU nb; malloc WORK (ib * nb)] in
      match until_null (names_null tau_ok work_ok) (calls r) with
      | (before, Some c) =>
          Some (NullReached (mk_result (failed ++ reported r)
                                       (allocs ++ before)) c)
      | (_, None) =>
          Some (Finished (mk_result (failed ++ reported r)
                                    (allocs ++ calls r
                                     ++ [free TAU; free WORK])))
      end
  | None => None
  end.

End Kernel.

(** The memory after a sequence of calls, for any account [sem] of what one
    call does to the memory. *)
Definition exec {mem : Type} (sem : call -> mem -> mem) (cs : list call)
    (s : mem) : mem :=
  fold_left (fun s c => sem c s) cs s.

(** The validation the specification describes: a negative [m], [n] or [ib],
    or one of the three strides below [max(1, m)], is reported and nothing is
    called. *)
Definition spec_validation (m n ib lda1 lda2 ldt : Z) : Prop :=
  m < 0 \/ n < 0 \/ ib < 0 \/
  lda1 < Z.max 1 m \/ lda2 < Z.max 1 m \/ ldt < Z.max 1 m ->
  exists msg, CORE_ztslqt m n ib lda1 lda2 ldt = Some (mk_result [msg] []).

(** *** Properties *)

Lemma panel_some m n ib lda1 lda2 ldt fuel ii :
  0 < ib -> Z.max 0 (m - ii) < Z.of_nat fuel ->
  exists cs, panel m n ib lda1 lda2 ldt fuel ii = Some cs.
Proof.
  intros Hib. revert ii. induction fuel as [|fuel IH]; intros ii Hf.
  - lia.
  - cbn [panel]. destruct (Z.ltb_spec ii m) as [Hlt|Hge].
    + destruct (IH (ii + ib)) as [cs ->]; [lia|]. eauto.
    + eauto.
Qed.


(** C1 as amended: a negative [m], [n] or [ib], or [lda2 < max(1, m)] with
    [m > 0], is reported through [plasma_error] and the kernel returns
    before it calls or assigns anything, so the memory is what it was. *)
Theorem ztslqt_invalid_argument m n ib lda1 lda2 ldt :
  m < 0 \/ n < 0 \/ ib < 0 \/ (0 < m /\ lda2 < Z.max 1 m) ->
  exists msg,
    CORE_ztslqt m n ib lda1 lda2 ldt = Some (mk_result [msg] [])
    /\ forall (mem : Type) (sem : call -> mem -> mem) (s : mem) r,
         CORE_ztslqt m n ib lda1 lda2 ldt = Some r ->
         exec sem (calls r) s = s.
Proof.
  intros H.
  assert (Hr : exists msg,
             CORE_ztslqt m n ib lda1 lda2 ldt = Some (mk_result [msg] [])).
  { unfold CORE_ztslqt.
    destruct (Z.ltb_spec m 0); [eauto|].
    destruct (Z.ltb_spec n 0); [eauto|].
    destruct (Z.ltb_spec ib 0); [eauto|].
    rewrite imax_max.
    destruct (Z.ltb_spec lda2 (Z.max 1 m)), (Z.gtb_spec m 0);
      cbn [andb]; eauto; lia. }
  destruct Hr as [msg Hr]. exists msg. split; [exact Hr|].
  intros mem sem s r Hr'. rewrite Hr in Hr'. injection Hr' as <-.
  reflexivity.
Qed.

(** C3: with [m], [n], [ib] not negative and [lda2] at least [max(1, m)],
    a call in which [m], [n] or [ib] is zero reports nothing, calls nothing
    (no allocation among the calls either) and leaves the memory as it
    was. *)
Theorem ztslqt_quick_return m n ib lda1 lda2 ldt :
  0 <= m -> 0 <= n -> 0 <= ib -> Z.max 1 m <= lda2 ->
  m = 0 \/ n = 0 \/ ib = 0 ->
  CORE_ztslqt m n ib lda1 lda2 ldt = Some (mk_result [] [])
  /\ forall (mem : Type) (sem : call -> mem -> mem) (s : mem) r,
       CORE_ztslqt m n ib lda1 lda2 ldt = Some r ->
       exec sem (calls r) s = s.
Proof.
  intros Hm Hn Hib Hld H0.
  assert (Hr : CORE_ztslqt m n ib lda1 lda2 ldt = Some (mk_result [] [])).
  { unfold CORE_ztslqt.
    destruct (Z.ltb_spec m 0); [lia|].
    destruct (Z.ltb_spec n 0); [lia|].
    destruct (Z.ltb_spec ib 0); [lia|].
    rewrite imax_max.
    destruct (Z.ltb_spec lda2 (Z.max 1 m)); [lia|]. cbn [andb].
    destruct (Z.eqb_spec m 0), (Z.eqb_spec n 0), (Z.eqb_spec ib 0);
      cbn [orb]; try reflexivity; lia. }
  split; [exact Hr|].
  intros mem sem s r Hr'. rewrite Hr in Hr'. injection Hr' as <-.
  reflexivity.
Qed.

(** Two reflectors on a 2 by 1 panel with [ldt = ib = 1]: nothing is
    reported and 23 calls and assignments are made. *)
Example ztslqt_small_ldt :
  option_map (fun r => (reported r, List.length (calls r), hd_error (calls r)))
             (CORE_ztslqt 2 1 1 2 2 1)
  = Some ([], 23%nat, Some (LAPACKE_zlacgv_work 1 (addr A2 0) 2)).
Proof. reflexivity. Qed.

(** The validation of the specification fails for [m = 2], [n = 1],
    [ib = 1], [lda1 = 2], [lda2 = 2], [ldt = 1]: [ldt] is below
    [max(1, m) = 2] (it is the [ib] the kernel documents as enough), and the
    kernel reports nothing and works on. *)
Lemma ztslqt_strides_not_validated : ~ spec_validation 2 1 1 2 2 1.
Proof.
  intros H. destruct H as [msg Hmsg].
  - right. right. right. right. right. reflexivity.
  - vm_compute in Hmsg. discriminate Hmsg.
Qed.

Lemma ztslqt_invalid_argument_witness :
  exists msg,
    CORE_ztslqt 3 2 1 3 2 3 = Some (mk_result [msg] [])
    /\ forall (mem : Type) (sem : call -> mem -> mem) (s : mem) r,
         CORE_ztslqt 3 2 1 3 2 3 = Some r ->
         exec sem (calls r) s = s.
Proof.
  apply (ztslqt_invalid_argument 3 2 1 3 2 3).
  right. right. right. split; reflexivity.
Defined.

Lemma ztslqt_quick_return_witness :
  CORE_ztslqt 4 0 2 4 4 4 = Some (mk_result [] [])
  /\ forall (mem : Type) (sem : call -> mem -> mem) (s : mem) r,
       CORE_ztslqt 4 0 2 4 4 4 = Some r ->
       exec sem (calls r) s = s.
Proof.
  apply (ztslqt_quick_return 4 0 2 4 4 4); try discriminate.
  right. left. reflexivity.
Defined.

(** *** More on the calls of the kernel *)

(** Kinds of calls. *)
Definition is_zlarfg (c : call) : bool :=
  match c with LAPACKE_zlarfg_work _ _ _ _ _ => true | _ => false end.

Definition is_assign (c : call) : bool :=
  match c with assign _ _ => true | _ => false end.

Definition is_ztsmlq (c : call) : bool :=
  match c with CORE_ztsmlq _ _ _ _ _ _ _ _ _ _ _ _ _ _ _ _ => true
             | _ => false end.


Lemma zrange_app lo mid hi :
  lo <= mid <= hi -> zrange lo hi = zrange lo mid ++ zrange mid hi.
Proof.
  intros H. remember (Z.to_nat (mid - lo)) as k eqn:Hk.
  revert lo H Hk. induction k as [|k IH]; intros lo H Hk.
  - assert (mid = lo) as -> by lia. now rewrite (zrange_nil lo lo) by lia.
  - rewrite (zrange_cons lo hi), (zrange_cons lo mid) by lia.
    cbn [app]. f_equal. apply IH; lia.
Qed.

Lemma flat_map_singleton {A B : Type} (g : A -> B) l :
  flat_map (fun x => [g x]) l = map g l.
Proof. induction l as [|x l IH]; cbn; [reflexivity|now rewrite IH]. Qed.

Lemma flat_map_nil {A B : Type} (l : list A) :
  flat_map (fun _ => @nil B) l = [].
Proof. induction l as [|x l IH]; cbn; [reflexivity|exact IH]. Qed.

Lemma filter_flat_map {A B : Type} (p : B -> bool) (f : A -> list B) l :
  filter p (flat_map f l) = flat_map (fun x => filter p (f x)) l.
Proof.
  induction l as [|x l IH]; cbn [flat_map]; [reflexivity|].
  now rewrite filter_app, IH.
Qed.

Section KernelCalls.

Variables m n ib lda1 lda2 ldt : Z.

(** What a filter keeps of the calls of the panel loop, row by row, when it
    keeps no [CORE_ztsmlq] and what it keeps of a reflector step does not
    depend on the block size: row [r] is step [r mod ib] of the block that
    starts at [r - r mod ib]. *)
Lemma panel_rows (p : call -> bool) (row : Z -> Z -> list call) :
  (forall ii sb i,
     filter p (reflector m n lda1 lda2 ldt ii sb i) = row ii i) ->
  (forall c, is_ztsmlq c = true -> p c = false) ->
  0 < ib ->
  forall fuel ii cs,
    0 <= ii -> ii mod ib = 0 ->
    panel m n ib lda1 lda2 ldt fuel ii = Some cs ->
    filter p cs
    = flat_map (fun r => row (r - r mod ib) (r mod ib)) (zrange ii m).
Proof.
  intros Hrow Hts Hib. induction fuel as [|fuel IH]; intros ii cs H0 Hmod Hp.
  - discriminate.
  - cbn [panel] in Hp. destruct (Z.ltb_spec ii m) as [Hlt|Hge].
    2: { injection Hp as <-. now rewrite zrange_nil by lia. }
    destruct (panel m n ib lda1 lda2 ldt fuel (ii + ib)) as [rest|] eqn:E;
      [|discriminate].
    injection Hp as <-. rewrite filter_app.
    assert (Hmod' : (ii + ib) mod ib = 0).
    { rewrite Z.add_mod, Hmod, Z.mod_same by lia. reflexivity. }
    rewrite (IH (ii + ib) rest ltac:(lia) Hmod' E).
    unfold block. rewrite imin_min.
    set (sb := Z.min (m - ii) ib).
    rewrite filter_app, filter_flat_map.
    assert (Hlast :
      filter p (if m >? ii + sb
                then [CORE_ztsmlq (m - (ii + sb)) sb (m - (ii + sb)) n ib ib
                        (addr A1 (lda1 * ii + ii + sb)) lda1
                        (addr A2 (ii + sb)) lda2 (addr A2 ii) lda2
                        (addr T (ldt * ii)) ldt (addr WORK 0) lda1]
                else []) = []).
    { destruct (m >? ii + sb); [|reflexivity]. cbn [filter].
      now rewrite Hts. }
    rewrite Hlast, app_nil_r.
    assert (Hblock :
      flat_map (fun i => filter p (reflector m n lda1 lda2 ldt ii sb i))
               (zrange 0 sb)
      = flat_map (fun r => row (r - r mod ib) (r mod ib))
                 (zrange ii (ii + sb))).
    { replace (zrange ii (ii + sb)) with (map (fun i => ii + i) (zrange 0 sb)).
      - rewrite flat_map_concat_map, flat_map_concat_map, map_map.
        f_equal. apply map_ext_in. intros i Hi. apply in_zrange in Hi.
        rewrite Hrow.
        assert (i = (ii + i) mod ib) as Hi'.
        { apply Z.mod_unique with (ii / ib); [lia|].
          rewrite (Z.div_mod ii ib) at 1 by lia. lia. }
        rewrite <- Hi'. f_equal. lia.
      - unfold zrange. rewrite map_map.
        replace (ii + sb - ii) with (sb - 0) by lia.
        apply map_ext. intros k. lia. }
    rewrite Hblock.
    destruct (Z.le_gt_cases ib (m - ii)) as [Hfull|Hpart].
    + replace sb with ib by lia.
      rewrite <- flat_map_app, <- zrange_app by lia. reflexivity.
    + replace (ii + sb) with m by lia.
      rewrite (zrange_nil (ii + ib)) by lia. cbn [flat_map].
      now rewrite app_nil_r.
Qed.

(** With valid arguments and nothing zero the kernel reports nothing and
    returns the calls of the panel loop. *)
Lemma CORE_ztslqt_runs :
  0 < m -> 0 < n -> 0 < ib -> Z.max 1 m <= lda2 ->
  exists cs,
    panel m n ib lda1 lda2 ldt (S (Z.to_nat m)) 0 = Some cs
    /\ CORE_ztslqt m n ib lda1 lda2 ldt = Some (mk_result [] cs).
Proof.
  intros Hm Hn Hib Hld.
  destruct (panel_some m n ib lda1 lda2 ldt (S (Z.to_nat m)) 0) as [cs Hcs];
    [lia|lia|].
  exists cs. split; [exact Hcs|]. unfold CORE_ztslqt. rewrite Hcs, imax_max.
  destruct (Z.ltb_spec m 0); [lia|].
  destruct (Z.ltb_spec n 0); [lia|].
  destruct (Z.ltb_spec ib 0); [lia|].
  destruct (Z.ltb_spec lda2 (Z.max 1 m)); [lia|]. cbn [andb].
  destruct (Z.eqb_spec m 0), (Z.eqb_spec n 0), (Z.eqb_spec ib 0);
    cbn [orb]; try lia. reflexivity.
Qed.

(** The kernel returns on every input, with at most one message; when it
    reports it calls nothing, and it makes a call only when [m], [n] and
    [ib] are positive and [lda2] is at least [max(1, m)]. *)
Theorem ztslqt_returns :
  exists r,
    CORE_ztslqt m n ib lda1 lda2 ldt = Some r
    /\ (reported r = [] \/
        exists msg, reported r = [msg] /\ calls r = [])
    /\ (calls r <> [] ->
        0 < m /\ 0 < n /\ 0 < ib /\ Z.max 1 m <= lda2 /\ reported r = []).
Proof.
  assert (Hrep : forall msg,
    exists r, Some (mk_result [msg] []) = Some r
      /\ (reported r = [] \/ exists msg, reported r = [msg] /\ calls r = [])
      /\ (calls r <> [] ->
          0 < m /\ 0 < n /\ 0 < ib /\ Z.max 1 m <= lda2 /\ reported r = [])).
  { intros msg. eexists. split; [reflexivity|]. split.
    - right. exists msg. split; reflexivity.
    - intros Hc. now contradiction Hc. }
  unfold CORE_ztslqt.
  destruct (Z.ltb_spec m 0); [apply Hrep|].
  destruct (Z.ltb_spec n 0); [apply Hrep|].
  destruct (Z.ltb_spec ib 0); [apply Hrep|].
  rewrite imax_max.
  destruct (Z.ltb_spec lda2 (Z.max 1 m)), (Z.gtb_spec m 0); cbn [andb];
    try apply Hrep.
  - (* m = 0 *)
    replace (m =? 0) with true by (symmetry; apply Z.eqb_eq; lia).
    cbn [orb]. eexists. split; [reflexivity|]. split; [now left|].
    intros Hc. now contradiction Hc.
  - destruct (Z.eqb_spec m 0), (Z.eqb_spec n 0), (Z.eqb_spec ib 0);
      cbn [orb];
      try (eexists; split; [reflexivity|]; split; [now left|];
           intros Hc; now contradiction Hc).
    destruct (panel_some m n ib lda1 lda2 ldt (S (Z.to_nat m)) 0) as [cs ->];
      [lia|lia|].
    eexists. split; [reflexivity|]. split; [now left|]. intros _.
    cbn [reported]. repeat split; lia.
  - replace (m =? 0) with true by (symmetry; apply Z.eqb_eq; lia).
    cbn [orb]. eexists. split; [reflexivity|]. split; [now left|].
    intros Hc. now contradiction Hc.
Qed.

(** With valid arguments and nothing zero, [LAPACKE_zlarfg_work] is called
    once for every row [r] from 0 to [m-1], in this order, on the diagonal
    element [A1[lda1*r + r]], row [r] of [A2] (length [n+1] in all, stride
    [lda2]) and [TAU[r]]. *)
Theorem ztslqt_reflector_rows :
  0 < m -> 0 < n -> 0 < ib -> Z.max 1 m <= lda2 ->
  exists r,
    CORE_ztslqt m n ib lda1 lda2 ldt = Some r
    /\ filter is_zlarfg (calls r)
       = map (fun r => LAPACKE_zlarfg_work (n + 1) (addr A1 (lda1 * r + r))
                                           (addr A2 r) lda2 (addr TAU r))
             (zrange 0 m).
Proof.
  intros Hm Hn Hib Hld.
  destruct (CORE_ztslqt_runs Hm Hn Hib Hld) as (cs & Hcs & Hr).
  eexists. split; [exact Hr|]. cbn [calls].
  rewrite (panel_rows is_zlarfg
             (fun ii i => [LAPACKE_zlarfg_work (n + 1)
                             (addr A1 (lda1 * (ii + i) + ii + i))
                             (addr A2 (ii + i)) lda2 (addr TAU (ii + i))]))
    with (fuel := S (Z.to_nat m)) (ii := 0); try assumption; try lia.
  - rewrite flat_map_singleton. apply map_ext_in. intros r Hr'.
    apply in_zrange in Hr'.
    replace (r - r mod ib + r mod ib) with r by lia.
    do 2 f_equal. lia.
  - intros ii sb i. unfold reflector.
    destruct (ii + i + 1 <? m); reflexivity.
  - now intros [].
  - reflexivity.
Qed.

(** With valid arguments and nothing zero, the kernel's own assignments put
    the [tau] of every row [r] from 0 to [m-1] on the diagonal of the block
    of [T] the row belongs to: [T[ldt*r + r mod ib] = TAU[r]]. *)
Theorem ztslqt_tau_on_block_diagonal :
  0 < m -> 0 < n -> 0 < ib -> Z.max 1 m <= lda2 ->
  exists r,
    CORE_ztslqt m n ib lda1 lda2 ldt = Some r
    /\ filter is_assign (calls r)
       = map (fun r => assign (addr T (ldt * r + r mod ib)) (addr TAU r))
             (zrange 0 m).
Proof.
  intros Hm Hn Hib Hld.
  destruct (CORE_ztslqt_runs Hm Hn Hib Hld) as (cs & Hcs & Hr).
  eexists. split; [exact Hr|]. cbn [calls].
  rewrite (panel_rows is_assign
             (fun ii i => [assign (addr T (ldt * (ii + i) + i))
                                  (addr TAU (ii + i))]))
    with (fuel := S (Z.to_nat m)) (ii := 0); try assumption; try lia.
  - rewrite flat_map_singleton. apply map_ext_in. intros r Hr'.
    replace (r - r mod ib + r mod ib) with r by lia. reflexivity.
  - intros ii sb i. unfold reflector.
    destruct (ii + i + 1 <? m); reflexivity.
  - now intros [].
  - reflexivity.
Qed.

Lemma panel_ztsmlq :
  0 < ib ->
  forall fuel ii cs,
    panel m n ib lda1 lda2 ldt fuel ii = Some cs ->
    Z.of_nat (List.length (filter is_ztsmlq cs))
    = if ii <? m then (m - ii - 1) / ib else 0.
Proof.
  intros Hib. induction fuel as [|fuel IH]; intros ii cs Hp.
  - discriminate.
  - cbn [panel] in Hp. destruct (Z.ltb_spec ii m) as [Hlt|Hge].
    2: { now injection Hp as <-. }
    destruct (panel m n ib lda1 lda2 ldt fuel (ii + ib)) as [rest|] eqn:E;
      [|discriminate].
    injection Hp as <-. specialize (IH _ _ E).
    rewrite filter_app, length_app, Nat2Z.inj_add, IH.
    unfold block. rewrite imin_min, filter_app, filter_flat_map.
    rewrite (flat_map_ext _ (fun _ => [])), flat_map_nil.
    2: { intros i. unfold reflector.
         destruct (ii + i + 1 <? m); reflexivity. }
    cbn [app].
    destruct (Z.gtb_spec m (ii + Z.min (m - ii) ib)) as [Hmore|Hlast];
      cbn [filter is_ztsmlq List.length].
    + destruct (Z.ltb_spec (ii + ib) m); [|lia].
      replace (m - ii - 1) with (m - (ii + ib) - 1 + 1 * ib) by lia.
      rewrite Z.div_add by lia. lia.
    + destruct (Z.ltb_spec (ii + ib) m); [lia|].
      rewrite Z.div_small by lia. reflexivity.
Qed.

(** The reflector steps of block [k], which starts at row [k*ib]. *)
Definition block_steps (k : Z) : list call :=
  let sb := Z.min (m - k * ib) ib in
  flat_map (reflector m n lda1 lda2 ldt (k * ib) sb) (zrange 0 sb).

(** The trailing update after block [k]: there is one after every block but
    the last, block [(m-1)/ib]. *)
Definition block_update (k : Z) : list call :=
  let ii := k * ib in
  let sb := Z.min (m - k * ib) ib in
  if k <? (m - 1) / ib then
    [ CORE_ztsmlq (m - (ii + sb)) sb (m - (ii + sb)) n ib ib
                  (addr A1 (lda1 * ii + ii + sb)) lda1
                  (addr A2 (ii + sb)) lda2
                  (addr A2 ii) lda2
                  (addr T (ldt * ii)) ldt
                  (addr WORK 0) lda1 ]
  else [].

Lemma flat_map_ext_zrange {B : Type} (f g : Z -> list B) lo hi :
  (forall k, lo <= k < hi -> f k = g k) ->
  flat_map f (zrange lo hi) = flat_map g (zrange lo hi).
Proof.
  intros H. rewrite !flat_map_concat_map. f_equal.
  apply map_ext_in. intros k Hk. apply H. now apply in_zrange.
Qed.

Lemma last_block_bounds :
  0 < ib -> 0 < m ->
  ib * ((m - 1) / ib) <= m - 1 < ib * ((m - 1) / ib + 1).
Proof.
  intros Hib Hm. split.
  - apply Z.mul_div_le. lia.
  - replace (ib * ((m - 1) / ib + 1)) with (ib * Z.succ ((m - 1) / ib))
      by lia.
    apply Z.mul_succ_div_gt. lia.
Qed.

Lemma panel_blocks :
  0 < ib -> 0 < m ->
  forall fuel k cs,
    0 <= k ->
    panel m n ib lda1 lda2 ldt fuel (k * ib) = Some cs ->
    cs = flat_map (fun j => block m n ib lda1 lda2 ldt (j * ib))
                  (zrange k ((m - 1) / ib + 1)).
Proof.
  intros Hib Hm. pose proof (last_block_bounds Hib Hm) as Hq.
  induction fuel as [|fuel IH]; intros k cs Hk Hp.
  - discriminate.
  - cbn [panel] in Hp. destruct (Z.ltb_spec (k * ib) m) as [Hlt|Hge].
    + destruct (panel m n ib lda1 lda2 ldt fuel (k * ib + ib))
        as [rest|] eqn:E; [|discriminate].
      injection Hp as <-.
      replace (k * ib + ib) with ((k + 1) * ib) in E by lia.
      rewrite (IH (k + 1) rest ltac:(lia) E).
      rewrite (zrange_cons k) by nia. reflexivity.
    + injection Hp as <-. rewrite zrange_nil by nia. reflexivity.
Qed.

Lemma block_split (k : Z) :
  0 < ib -> 0 < m -> 0 <= k <= (m - 1) / ib ->
  block m n ib lda1 lda2 ldt (k * ib) = block_steps k ++ block_update k.
Proof.
  intros Hib Hm Hk. pose proof (last_block_bounds Hib Hm) as Hq.
  unfold block, block_steps, block_update. rewrite imin_min. cbv zeta.
  f_equal.
  destruct (Z.gtb_spec m (k * ib + Z.min (m - k * ib) ib)),
    (Z.ltb_spec k ((m - 1) / ib)); try reflexivity; nia.
Qed.

(** With valid arguments and nothing zero, the calls of the kernel are,
    block after block for the blocks 0 to [(m-1)/ib], the reflector steps of
    the block followed by its trailing update: [CORE_ztsmlq] is called once
    after the steps of every block but the last and nowhere else, so
    [(m-1)/ib] times, and not at all when [ib >= m]. *)
Theorem ztslqt_trailing_updates :
  0 < m -> 0 < n -> 0 < ib -> Z.max 1 m <= lda2 ->
  exists r,
    CORE_ztslqt m n ib lda1 lda2 ldt = Some r
    /\ calls r = flat_map (fun k => block_steps k ++ block_update k)
                          (zrange 0 ((m - 1) / ib + 1))
    /\ (forall k, filter is_ztsmlq (block_steps k) = [])
    /\ Z.of_nat (List.length (filter is_ztsmlq (calls r))) = (m - 1) / ib
    /\ (m <= ib -> filter is_ztsmlq (calls r) = []).
Proof.
  intros Hm Hn Hib Hld.
  destruct (CORE_ztslqt_runs Hm Hn Hib Hld) as (cs & Hcs & Hr).
  eexists. split; [exact Hr|]. cbn [calls]. split; [|split].
  - rewrite (panel_blocks Hib Hm (S (Z.to_nat m)) 0 cs ltac:(lia) Hcs).
    apply flat_map_ext_zrange. intros k Hk. apply block_split; lia.
  - intros k. unfold block_steps. cbv zeta. rewrite filter_flat_map.
    rewrite (flat_map_ext _ (fun _ => [])), flat_map_nil; [reflexivity|].
    intros i. unfold reflector.
    destruct (k * ib + i + 1 <? m); reflexivity.
  - pose proof (panel_ztsmlq Hib _ _ _ Hcs) as Hc.
    destruct (Z.ltb_spec 0 m); [|lia]. rewrite Z.sub_0_r in Hc.
    split; [exact Hc|]. intros Hle. rewrite Z.div_small in Hc by lia.
    destruct (filter is_ztsmlq cs); [reflexivity|discriminate].
Qed.





End KernelCalls.

(** A panel of 5 rows in blocks of 2. *)
Example ztslqt_5_by_2 :
  option_map (fun r => (filter is_assign (calls r), filter is_ztsmlq (calls r)))
             (CORE_ztslqt 5 3 2 5 5 2)
  = Some ([assign (addr T 0) (addr TAU 0); assign (addr T 3) (addr TAU 1);
           assign (addr T 4) (addr TAU 2); assign (addr T 7) (addr TAU 3);
           assign (addr T 8) (addr TAU 4)],
          [CORE_ztsmlq 3 2 3 3 2 2 (addr A1 2) 5 (addr A2 2) 5 (addr A2 0) 5
                       (addr T 0) 2 (addr WORK 0) 5;
           CORE_ztsmlq 1 2 1 3 2 2 (addr A1 14) 5 (addr A2 4) 5 (addr A2 2) 5
                       (addr T 4) 2 (addr WORK 0) 5]).
Proof. reflexivity. Qed.

Lemma ztslqt_reflector_rows_witness :
  exists r,
    CORE_ztslqt 5 3 2 5 5 2 = Some r
    /\ filter is_zlarfg (calls r)
       = map (fun r => LAPACKE_zlarfg_work (3 + 1) (addr A1 (5 * r + r))
                                           (addr A2 r) 5 (addr TAU r))
             (zrange 0 5).
Proof.
  apply (ztslqt_reflector_rows 5 3 2 5 5 2); reflexivity || discriminate.
Defined.

Lemma ztslqt_tau_on_block_diagonal_witness :
  exists r,
    CORE_ztslqt 5 3 2 5 5 2 = Some r
    /\ filter is_assign (calls r)
       = map (fun r => assign (addr T (2 * r + r mod 2)) (addr TAU r))
             (zrange 0 5).
Proof.
  apply (ztslqt_tau_on_block_diagonal 5 3 2 5 5 2);
    reflexivity || discriminate.
Defined.

Lemma ztslqt_trailing_updates_witness :
  exists r,
    CORE_ztslqt 5 3 2 5 5 2 = Some r
    /\ calls r = flat_map (fun k => block_steps 5 3 2 5 5 2 k
                                    ++ block_update 5 3 2 5 5 2 k)
                          (zrange 0 ((5 - 1) / 2 + 1))
    /\ (forall k, filter is_ztsmlq (block_steps 5 3 2 5 5 2 k) = [])
    /\ Z.of_nat (List.length (filter is_ztsmlq (calls r))) = (5 - 1) / 2
    /\ (5 <= 2 -> filter is_ztsmlq (calls r) = []).
Proof.
  apply (ztslqt_trailing_updates 5 3 2 5 5 2); reflexivity || discriminate.
Defined.

(** The task body on a 2 by 1 panel when [malloc] gives no [TAU]: the two
    conjugations are made and the reflector generation is handed the null
    array; no [free] is reached. *)
Example ztslqt_task_null_tau :
  CORE_OMP_ztslqt 2 1 1 2 2 1 2 false true
  = Some (NullReached
            (mk_result ["malloc() failed"%string]
               [malloc TAU 2; malloc WORK 2;
                LAPACKE_zlacgv_work 1 (addr A2 0) 2;
                LAPACKE_zlacgv_work 1 (addr A1 0) 2])
            (LAPACKE_zlarfg_work 2 (addr A1 0) (addr A2 0) 2 (addr TAU 0))).
Proof. reflexivity. Qed.


End Tslqt.

(** ** The [zstevx2] test driver: Kahan's matrix, [testEVec], [test_zstevx2] *)

Module Zstevx2.

(** How a piece of the driver ends: it returns a value, it does something
    the C standard leaves undefined (an access outside an array, the read of
    a variable that was never assigned, a shift by the width of [int]), an
    [assert] stops the process, or the model's fuel is used up. *)
Inductive outcome (A : Type) : Type :=
| Returned (a : A)
| Undefined
| Aborted
| OutOfFuel.

Arguments Returned {A} a.
Arguments Undefined {A}.
Arguments Aborted {A}.
Arguments OutOfFuel {A}.

Definition bind {A B : Type} (c : outcome A) (k : A -> outcome B)
    : outcome B :=
  match c with
  | Returned a => k a
  | Undefined => Undefined
  | Aborted => Aborted
  | OutOfFuel => OutOfFuel
  end.

Notation "x <- c ;; k" := (bind c (fun x => k))
  (at level 61, c at next level, right associativity).
Notation "' p <- c ;; k" := (bind c (fun p => k))
  (at level 61, p pattern, c at next level, right associativity).

(** A counted loop whose body may fail. *)
Fixpoint foldM {S : Type} (body : Z -> S -> outcome S) (l : list Z) (s : S)
    : outcome S :=
  match l with
  | [] => Returned s
  | i :: l' => s' <- body i s ;; foldM body l' s'
  end.

(** *** Arrays *)

Fixpoint upd {A : Type} (a : list A) (k : nat) (v : A) : list A :=
  match a, k with
  | [], _ => []
  | _ :: a', O => v :: a'
  | x :: a', S k' => x :: upd a' k' v
  end.

(** [a[i]] as a value. *)
Definition load {A : Type} (a : list A) (i : Z) : outcome A :=
  if i <? 0 then Undefined
  else match nth_error a (Z.to_nat i) with
       | Some v => Returned v
       | None => Undefined
       end.

(** [a[i] = v]. *)
Definition store {A : Type} (a : list A) (i : Z) (v : A) : outcome (list A) :=
  if (0 <=? i) && (i <? Z.of_nat (List.length a))
  then Returned (upd a (Z.to_nat i) v)
  else Undefined.

(** [&a[k]]: the array that starts at element [k] of [a]. *)
Definition suffix {A : Type} (a : list A) (k : Z) : outcome (list A) :=
  if (0 <=? k) && (k <=? Z.of_nat (List.length a))
  then Returned (skipn (Z.to_nat k) a)
  else Undefined.

(** *** The scalar type

    The file is a precision template ([plasma_complex64_t] becomes [double]
    or [float]); the code is written against the operations it uses.
    [Real_ops] has the arithmetic and the functions of math.h that make
    sense for real numbers as well as for a floating-point format;
    [Float_ops] has the comparisons as the program branches on them and what
    belongs to the format. *)
Class Real_ops (F : Type) : Type := {
  of_int : Z -> F;            (* an [int] converted, and literals like [4.] *)
  of_dec : Z -> Z -> F;       (* the literal [m]e[e], [m * 10^e] *)
  fadd : F -> F -> F;
  fsub : F -> F -> F;
  fmul : F -> F -> F;
  fdiv : F -> F -> F;
  fneg : F -> F;
  fabs : F -> F;
  fsqrt : F -> F;
  fcos : F -> F;
  M_PI : F
}.

Class Float_ops (F : Type) : Type := {
  fltb : F -> F -> bool;      (* [a < b] *)
  fleb : F -> F -> bool;      (* [a <= b] *)
  nexttoward : F -> F -> F;
  DBL_MAX : F
}.

Section Kahan.

Context {F : Type} {RO : Real_ops F}.

(** One round of [for (k=1; k<=(n/2); k++)]: the value [ev]. *)
Definition kahan_ev (n : Z) (myDiag : F) (k : Z) : F :=
  let ev := fdiv (fadd (fmul M_PI (of_int k)) (of_int 0))
                 (fadd (of_int n) (of_int 1)) in
  let ev := fcos ev in
  let ev := fmul ev (fmul (of_int 4) ev) in
  let ev := fadd ev (fmul myDiag myDiag) in
  fsqrt ev.

(** [if (k) diag[i]=-myDiag; else diag[i]=myDiag;] with [k=(i&1)]. *)
Definition kahan_diag (myDiag : F) (i : Z) : F :=
  if negb (Z.land i 1 =? 0) then fneg myDiag else myDiag.

(** [testMatrix_Kahan]: the three arrays as the call leaves them. *)
Definition testMatrix_Kahan (diag offd evalue : list F) (n : Z) (myDiag : F)
    : outcome (list F * list F * list F) :=
  evalue <- foldM (fun k evalue =>
                     let ev := kahan_ev n myDiag k in
                     evalue <- store evalue (k - 1) (fneg ev) ;;
                     store evalue (n + 1 - k - 1) ev)
                  (zrange 1 (Z.quot n 2 + 1)) evalue ;;
  ' (diag, offd) <- foldM (fun i '(diag, offd) =>
                             diag <- store diag i (kahan_diag myDiag i) ;;
                             offd <- store offd i (of_int 1) ;;
                             Returned (diag, offd))
                          (zrange 0 (n - 1)) (diag, offd) ;;
  (* the counter when [for (i=0; i<n-1; i++)] ends *)
  let i := Z.max 0 (n - 1) in
  diag <- store diag i (kahan_diag myDiag i) ;;
  Returned (diag, offd, evalue).

(** [testEVec]. *)
Definition testEVec (diag offd : list F) (n : Z) (X : list F) (lambda : F)
    : outcome F :=
  let sumMM := of_int 0 in
  let sumVec := of_int 0 in
  let invLambda := fdiv (of_int 1) lambda in
  d0 <- load diag 0 ;; x0 <- load X 0 ;;
  o0 <- load offd 0 ;; x1 <- load X 1 ;;
  let mmRes := fmul (fadd (fmul d0 x0) (fmul o0 x1)) invLambda in
  vmRes <- load X 0 ;;
  let sumMM := fadd sumMM (fmul mmRes mmRes) in
  let sumVec := fadd sumVec (fmul vmRes vmRes) in
  o <- load offd (n - 2) ;; xa <- load X (n - 2) ;;
  d <- load diag (n - 1) ;; xb <- load X (n - 1) ;;
  let mmRes := fmul (fadd (fmul o xa) (fmul d xb)) invLambda in
  vmRes <- load X (n - 1) ;;
  let sumMM := fadd sumMM (fmul mmRes mmRes) in
  let sumVec := fadd sumVec (fmul vmRes vmRes) in
  ' (sumMM, sumVec) <-
    foldM (fun i '(sumMM, sumVec) =>
             o1 <- load offd (i - 1) ;; xp <- load X (i - 1) ;;
             d <- load diag i ;; xi <- load X i ;;
             o2 <- load offd i ;; xn <- load X (i + 1) ;;
             let mmRes :=
               fmul (fadd (fadd (fmul o1 xp) (fmul d xi)) (fmul o2 xn))
                    invLambda in
             vmRes <- load X i ;;
             Returned (fadd sumMM (fmul mmRes mmRes),
                       fadd sumVec (fmul vmRes vmRes)))
          (zrange 1 (n - 1)) (sumMM, sumVec) ;;
  let sumMM := fsqrt sumMM in
  let sumVec := fsqrt sumVec in
  Returned (fabs (fsub sumVec sumMM)).

End Kahan.

(** *** [test_zstevx2] *)

(** Modelled from the spec: the entries of [param] the driver touches
    (test.h is not among the sources); the driver "writes a timing value, a
    worst-case error value, and a pass/fail boolean into a caller-supplied
    parameter record". *)
Record param_value_t (F : Type) : Type := mk_param {
  dim_used : bool;       (* param[PARAM_DIM].used = PARAM_USE_M *)
  dim_m : Z;             (* param[PARAM_DIM].dim.m *)
  test_c : Ascii.ascii;  (* param[PARAM_TEST].c *)
  time_d : F;            (* param[PARAM_TIME].d *)
  error_d : F;           (* param[PARAM_ERROR].d *)
  success_i : Z          (* param[PARAM_SUCCESS].i *)
}.

Arguments mk_param {F}.
Arguments dim_used {F}.
Arguments dim_m {F}.
Arguments test_c {F}.
Arguments time_d {F}.
Arguments error_d {F}.
Arguments success_i {F}.

(** The type of call of the solver. *)
Inductive eigt_job : Type := PlasmaCount | PlasmaVec.

(** What the solver hands back: its return value, [*pFound], and the three
    output arrays. *)
Record solver_result (F : Type) : Type := mk_solver_result {
  ret : Z;
  found : Z;
  out_pVal : list F;
  out_pMul : list Z;
  out_pVec : list F
}.

Arguments mk_solver_result {F}.
Arguments ret {F}.
Arguments found {F}.
Arguments out_pVal {F}.
Arguments out_pMul {F}.
Arguments out_pVec {F}.

(** The variables of [test_zstevx2] when the two solver calls are done. *)
Record driver_state (F : Type) : Type := mk_state {
  st_m : Z;
  st_eps : F;
  Diag : list F;
  Offd : list F;
  eigenvalues : list F;
  pVal : list F;
  pMul : list Z;
  pVec : list F;
  nEigVals : Z;
  vectorsFound : Z;
  st_param : param_value_t F
}.

Arguments mk_state {F}.
Arguments st_m {F}.
Arguments st_eps {F}.
Arguments Diag {F}.
Arguments Offd {F}.
Arguments eigenvalues {F}.
Arguments pVal {F}.
Arguments pMul {F}.
Arguments pVec {F}.
Arguments nEigVals {F}.
Arguments vectorsFound {F}.
Arguments st_param {F}.

(** The variables of the search for the worst eigenvalue error;
    [worstEigenvalue_eps] has no initial value. *)
Record worst_t (F : Type) : Type := mk_worst {
  w_i : Z;
  evIdx : Z;
  worstEigenvalue_error : F;
  worstEigenvalue_eps : option F;
  worstEigenvalue_index : Z;
  worstEigenvalue_mpcty : Z;
  max_mpcty : Z
}.

Arguments mk_worst {F}.
Arguments w_i {F}.
Arguments evIdx {F}.
Arguments worstEigenvalue_error {F}.
Arguments worstEigenvalue_eps {F}.
Arguments worstEigenvalue_index {F}.
Arguments worstEigenvalue_mpcty {F}.
Arguments max_mpcty {F}.

(** [assert(p != NULL)] on what [malloc] gave. *)
Definition allocated {A : Type} (p : option (list A)) : outcome (list A) :=
  match p with
  | Some a => Returned a
  | None => Aborted
  end.

(** The read of a local variable that has no initialiser. *)
Definition initialised {A : Type} (v : option A) : outcome A :=
  match v with
  | Some a => Returned a
  | None => Undefined
  end.

(** [i=1; while ((m>>i)) i++;] on a 32-bit [int]. *)
Fixpoint shift_loop (fuel : nat) (m i : Z) : outcome Z :=
  match fuel with
  | O => OutOfFuel
  | S fuel' =>
      if 32 <=? i then Undefined
      else if Z.shiftr m i =? 0 then Returned i
      else shift_loop fuel' m (i + 1)
  end.

Definition ceil_log2_loop (m : Z) : outcome Z := shift_loop 32 m 1.

Section Driver.

Context {F : Type} {RO : Real_ops F} {FO : Float_ops F}.

(** What is outside the file: the machine epsilon of [LAPACKE_dlamch('E')],
    the memory [malloc] gives for each array ([None] for [NULL]; the
    contents are whatever the memory held), the two readings of the clock
    and the solver.  The range type (always [PlasmaRangeV]) is left out of
    the solver's arguments. *)
Variable lamch_E : F.
Variable Diag_mem Offd_mem eigenvalues_mem pVal_mem : option (list F).
Variable pMul_mem : option (list Z).
Variable pVec_mem : Z -> option (list F).
Variable wtime_start wtime_stop : F.
Variable plasma_zstevx2 :
  eigt_job -> Z -> Z -> list F -> list F -> F -> F -> Z -> Z ->
  list F -> list Z -> option (list F) -> solver_result F.

(** [minAbsEV], [maxAbsEV] and [Kond]. *)
Definition condition_number (eigenvalues : list F) (m : Z) : outcome F :=
  ' (minAbsEV, maxAbsEV) <-
    foldM (fun i '(minAbsEV, maxAbsEV) =>
             e <- load eigenvalues i ;;
             let minAbsEV :=
               if fltb (fabs e) minAbsEV then fabs e else minAbsEV in
             let maxAbsEV :=
               if fltb maxAbsEV (fabs e) then fabs e else maxAbsEV in
             Returned (minAbsEV, maxAbsEV))
          (zrange 0 m) (DBL_MAX, of_int 0) ;;
  Returned (fdiv maxAbsEV minAbsEV).

(** From the entry with [run] set to the second return of the solver. *)
Definition setup (param : param_value_t F) : outcome (driver_state F) :=
  let m := dim_m param in
  let eps := lamch_E in
  Diag <- allocated Diag_mem ;;
  Offd <- allocated Offd_mem ;;
  eigenvalues <- allocated eigenvalues_mem ;;
  pVal <- allocated pVal_mem ;;
  pMul <- allocated pMul_mem ;;
  let myDiag := of_dec 1 (-5) in
  ' (Diag, Offd, eigenvalues) <-
    testMatrix_Kahan Diag Offd eigenvalues m myDiag ;;
  Kond <- condition_number eigenvalues m ;;
  let il := 0 in
  let iu := 500 in
  let vl := of_dec 15 (-1) in
  let vu := of_dec 201 (-2) in
  let r := plasma_zstevx2 PlasmaCount m 0 Diag Offd vl vu il iu
                          pVal pMul None in
  let nEigVals := found r in
  if nEigVals <? 1 then Aborted      (* assert(nEigVals > 0) *)
  else
    pVec <- allocated (pVec_mem (m * nEigVals)) ;;
    let r' := plasma_zstevx2 PlasmaVec m nEigVals Diag Offd vl vu il iu
                             (out_pVal r) (out_pMul r) (Some pVec) in
    let time := fsub wtime_stop wtime_start in
    Returned
      (mk_state m eps Diag Offd eigenvalues (out_pVal r') (out_pMul r')
                (out_pVec r') nEigVals (found r')
                (mk_param (dim_used param) (dim_m param) (test_c param)
                          time (error_d param) (success_i param))).

(** The body of [for (j=0; j<pMul[i]; j++)]; the flag says that the loop
    was left through [break]. *)
Definition multiplicity_step (st : driver_state F) (j : Z)
    (wb : worst_t F * bool) : outcome (worst_t F * bool) :=
  let (w, broke) := wb in
  if broke then Returned (w, true)
  else
    e <- load (eigenvalues st) (evIdx w) ;;
    let ev_eps := fsub (nexttoward (fabs e) DBL_MAX) (fabs e) in
    p <- load (pVal st) (w_i w) ;;
    let error := fdiv (fabs (fsub p e)) ev_eps in
    w <- (if fltb (worstEigenvalue_error w) error then
            mpcty <- load (pMul st) (w_i w) ;;
            Returned (mk_worst (w_i w) (evIdx w) error (Some ev_eps)
                               (w_i w) mpcty (max_mpcty w))
          else Returned w) ;;
    let evIdx' := evIdx w + 1 in
    Returned (mk_worst (w_i w) evIdx' (worstEigenvalue_error w)
                       (worstEigenvalue_eps w) (worstEigenvalue_index w)
                       (worstEigenvalue_mpcty w) (max_mpcty w),
              evIdx' =? st_m st).

(** [while (evIdx < m)]. *)
Fixpoint worst_loop (fuel : nat) (st : driver_state F) (w : worst_t F)
    : outcome (worst_t F) :=
  match fuel with
  | O => OutOfFuel
  | S fuel' =>
      if evIdx w <? st_m st then
        mpcty <- load (pMul st) (w_i w) ;;
        let w := if mpcty >? max_mpcty w
                 then mk_worst (w_i w) (evIdx w) (worstEigenvalue_error w)
                               (worstEigenvalue_eps w)
                               (worstEigenvalue_index w)
                               (worstEigenvalue_mpcty w) mpcty
                 else w in
        ' (w, _) <- foldM (multiplicity_step st) (zrange 0 mpcty) (w, false) ;;
        worst_loop fuel' st
                   (mk_worst (w_i w + 1) (evIdx w) (worstEigenvalue_error w)
                             (worstEigenvalue_eps w) (worstEigenvalue_index w)
                             (worstEigenvalue_mpcty w) (max_mpcty w))
      else Returned w
  end.

(** From [if (test)] to the message on the worst eigenvalue error: the worst
    error and the spacing it was measured in.  The messages read the arrays
    and the variables they print. *)
Definition eigenvalue_errors (st : driver_state F) : outcome (F * F) :=
  _ <- load (pVal st) 0 ;;
  _ <- load (pMul st) 0 ;;
  _ <- load (pVal st) (vectorsFound st - 1) ;;
  _ <- load (pMul st) (vectorsFound st - 1) ;;
  _ <- load (eigenvalues st) (st_m st - 1) ;;
  w <- worst_loop (S (List.length (pMul st))) st
                  (mk_worst 0 (st_m st - nEigVals st) (of_int 0) None 0 0 0) ;;
  worstEigenvalue_eps <- initialised (worstEigenvalue_eps w) ;;
  _ <- load (pVal st) (worstEigenvalue_index w) ;;
  _ <- load (eigenvalues st) (worstEigenvalue_index w) ;;
  Returned (worstEigenvalue_error w, worstEigenvalue_eps).

(** [for (i=0; i<vectorsFound; i++)]: the worst eigenvector error, its
    index, and the vectors [testEVec] was called on, in order. *)
Definition eigenvector_errors (st : driver_state F)
    : outcome (F * Z * list Z) :=
  foldM (fun i '(worstEigenvector_error, worstEigenvector_index, called) =>
           X <- suffix (pVec st) (st_m st * i) ;;
           lambda <- load (pVal st) i ;;
           vErr <- testEVec (Diag st) (Offd st) (st_m st) X lambda ;;
           if fltb worstEigenvector_error vErr
           then Returned (vErr, i, called ++ [i])
           else Returned (worstEigenvector_error, worstEigenvector_index,
                          called ++ [i]))
        (zrange 0 (vectorsFound st)) (of_int 0, 0, []).

(** [param[PARAM_SUCCESS].i = (worstEigenvector_error <= (i<<1)*eps)]. *)
Definition eigenvector_success (i : Z) (worstEigenvector_error eps : F) : Z :=
  if fleb worstEigenvector_error (fmul (of_int (Z.shiftl i 1)) eps)
  then 1 else 0.

(** The block [if (test) { ... }]: [param] and the calls of [testEVec]. *)
Definition check (st : driver_state F) : outcome (param_value_t F * list Z) :=
  ' (worstEigenvalue_error, worstEigenvalue_eps) <- eigenvalue_errors st ;;
  let param := st_param st in
  let param := mk_param (dim_used param) (dim_m param) (test_c param)
                        (time_d param)
                        (fmul worstEigenvalue_error worstEigenvalue_eps)
                        (if fltb worstEigenvalue_error (of_int 3)
                         then 1 else 0) in
  if success_i param =? 0 then Returned (param, [])   (* goto TestingDone *)
  else
    ' (worstEigenvector_error, _, called) <- eigenvector_errors st ;;
    i <- ceil_log2_loop (st_m st) ;;
    Returned (mk_param (dim_used param) (dim_m param) (test_c param)
                       (time_d param) worstEigenvector_error
                       (eigenvector_success i worstEigenvector_error
                                            (st_eps st)),
              called).

(** [param[PARAM_DIM].used = PARAM_USE_M;] *)
Definition mark_used (param : param_value_t F) : param_value_t F :=
  mk_param true (dim_m param) (test_c param) (time_d param)
           (error_d param) (success_i param).

(** [test_zstevx2]: [param] at the return and the calls of [testEVec]. *)
Definition test_zstevx2 (param : param_value_t F) (run : bool)
    : outcome (param_value_t F * list Z) :=
  let param := mark_used param in
  if negb run then Returned (param, [])
  else
    let test := Ascii.eqb (test_c param) "y"%char in
    st <- setup param ;;
    if test then check st else Returned (st_param st, []).

End Driver.

(** *** Two scalar types *)

(** Real numbers: the arithmetic without rounding. *)
#[export] Instance real_ops : Real_ops R := {|
  of_int := IZR;
  of_dec := fun m e => (IZR m * powerRZ 10 e)%R;
  fadd := Rplus;
  fsub := Rminus;
  fmul := Rmult;
  fdiv := Rdiv;
  fneg := Ropp;
  fabs := Rabs;
  fsqrt := R_sqrt.sqrt;
  fcos := Rtrigo_def.cos;
  M_PI := Rtrigo1.PI
|}.

(** IEEE binary64, the [double] of the usual C implementations. *)
Definition float_of_Z (z : Z) : float :=
  if z <? 0 then PrimFloat.opp (PrimFloat.of_uint63 (Uint63.of_Z (- z)))
  else PrimFloat.of_uint63 (Uint63.of_Z z).

(** A cosine for binary64 (the C library's own is external): the Taylor
    polynomial of degree 36 in Horner form, as close to the cosine as
    binary64 can tell on the angles between 0 and pi/2 that
    [testMatrix_Kahan] asks for. *)
Fixpoint cos_horner (terms : nat) (j : Z) (x2 : float) : float :=
  match terms with
  | O => PrimFloat.one
  | S terms' =>
      PrimFloat.sub PrimFloat.one
        (PrimFloat.mul (PrimFloat.div x2 (float_of_Z ((2 * j - 1) * (2 * j))))
                       (cos_horner terms' (j + 1) x2))
  end.

Definition float_nexttoward (x y : float) : float :=
  if PrimFloat.eqb x y then y
  else if PrimFloat.ltb x y then PrimFloat.next_up x
  else if PrimFloat.ltb y x then PrimFloat.next_down x
  else PrimFloat.add x y.

#[export] Instance binary64_ops : Real_ops float := {|
  of_int := float_of_Z;
  of_dec := fun m e =>
    if 0 <=? e then float_of_Z (m * 10 ^ e)
    else PrimFloat.div (float_of_Z m) (float_of_Z (10 ^ (- e)));
  fadd := PrimFloat.add;
  fsub := PrimFloat.sub;
  fmul := PrimFloat.mul;
  fdiv := PrimFloat.div;
  fneg := PrimFloat.opp;
  fabs := PrimFloat.abs;
  fsqrt := PrimFloat.sqrt;
  fcos := fun x => cos_horner 18 1 (PrimFloat.mul x x);
  M_PI := 0x1.921fb54442d18p+1%float
|}.

#[export] Instance binary64_float : Float_ops float := {|
  fltb := PrimFloat.ltb;
  fleb := PrimFloat.leb;
  nexttoward := float_nexttoward;
  DBL_MAX := 0x1.fffffffffffffp+1023%float
|}.

(** *** What the specification says of Kahan's matrix *)

(** The analytic eigenvalue [k] (counted from 1) of the specification:
    [sqrt(x^2 + 4 cos^2(pi k / (n+1)))]. *)
Definition spec_eigenvalue (n : Z) (x : R) (k : Z) : R :=
  R_sqrt.sqrt (x * x + 4 * (Rtrigo_def.cos (PI * IZR k / IZR (n + 1))
                            * Rtrigo_def.cos (PI * IZR k / IZR (n + 1))))%R.

(** The entries of [evalue] that [testMatrix_Kahan] stores. *)
Definition stored (n i : Z) : Prop :=
  0 <= i < Z.quot n 2 \/ n - Z.quot n 2 <= i < n.

(** *** A run in binary64 *)

(** A run of the driver on a matrix of order 2 with a solver that reports
    one eigenvalue, 1.5, where the matrix has 1.00000000005. *)
Definition example_solver (job : eigt_job) (n k : Z) (diag offd : list float)
    (vl vu : float) (il iu : Z) (pVal : list float) (pMul : list Z)
    (pVec : option (list float)) : solver_result float :=
  mk_solver_result 0 1 [1.5; 0]%float [1; 0] [1; 1]%float.

Definition example_param : param_value_t float :=
  mk_param false 2 "y"%char 0%float 0%float 0.

Definition example_setup : outcome (driver_state float) :=
  setup 0x1p-53%float (Some [0; 0]%float) (Some [0]%float)
        (Some [0; 0]%float) (Some [0; 0]%float) (Some [0; 0])
        (fun k => Some (repeat 0%float (Z.to_nat k))) 0%float 1%float
        example_solver (mark_used example_param).

Definition example_run : outcome (param_value_t float * list Z) :=
  test_zstevx2 0x1p-53%float (Some [0; 0]%float) (Some [0]%float)
               (Some [0; 0]%float) (Some [0; 0]%float) (Some [0; 0])
               (fun k => Some (repeat 0%float (Z.to_nat k))) 0%float 1%float
               example_solver example_param true.

(** *** Properties of the arrays and of the loops *)

(** Decide the integer comparisons of the goal, then close it by arithmetic
    where that is enough. *)
Ltac zcases :=
  repeat match goal with
         | |- context [?a <=? ?b] => destruct (Z.leb_spec a b)
         | |- context [?a <? ?b] => destruct (Z.ltb_spec a b)
         | |- context [?a =? ?b] => destruct (Z.eqb_spec a b)
         end;
  cbn [andb orb negb]; try lia; try reflexivity.

Lemma foldM_app {S : Type} (body : Z -> S -> outcome S) l1 l2 (s : S) :
  foldM body (l1 ++ l2) s = (s' <- foldM body l1 s ;; foldM body l2 s').
Proof.
  revert s. induction l1 as [|i l1 IH]; intros s; cbn [foldM app bind].
  - reflexivity.
  - destruct (body i s); cbn [bind]; auto.
Qed.

Lemma upd_length {A : Type} (a : list A) k v :
  List.length (upd a k v) = List.length a.
Proof.
  revert k. induction a as [|x a IH]; intros [|k]; cbn; auto.
Qed.

Lemma nth_error_upd_eq {A : Type} (a : list A) k v :
  (k < List.length a)%nat -> nth_error (upd a k v) k = Some v.
Proof.
  revert k. induction a as [|x a IH]; intros [|k] H; cbn in *;
    try lia; auto. apply IH. lia.
Qed.

Lemma nth_error_upd_neq {A : Type} (a : list A) k k' v :
  k <> k' -> nth_error (upd a k v) k' = nth_error a k'.
Proof.
  revert k k'. induction a as [|x a IH]; intros [|k] [|k'] H; cbn;
    try congruence; auto.
Qed.

Lemma store_returns {A : Type} (a : list A) i v :
  0 <= i < Z.of_nat (List.length a) ->
  store a i v = Returned (upd a (Z.to_nat i) v).
Proof.
  intros H. unfold store.
  destruct (Z.leb_spec 0 i), (Z.ltb_spec i (Z.of_nat (List.length a)));
    cbn [andb]; try lia; reflexivity.
Qed.

Lemma load_upd {A : Type} (a : list A) i j v :
  0 <= i < Z.of_nat (List.length a) ->
  load (upd a (Z.to_nat i) v) j = if j =? i then Returned v else load a j.
Proof.
  intros H. unfold load. destruct (Z.eqb_spec j i) as [->|Hne].
  - destruct (Z.ltb_spec i 0); [lia|].
    rewrite nth_error_upd_eq by lia. reflexivity.
  - destruct (Z.ltb_spec j 0); [reflexivity|].
    rewrite nth_error_upd_neq by lia. reflexivity.
Qed.

Lemma load_returns {A : Type} (a : list A) i :
  0 <= i < Z.of_nat (List.length a) -> exists v, load a i = Returned v.
Proof.
  intros H. unfold load. destruct (Z.ltb_spec i 0); [lia|].
  destruct (nth_error a (Z.to_nat i)) eqn:E; [eauto|].
  apply nth_error_None in E. lia.
Qed.

Lemma load_outside {A : Type} (a : list A) i :
  i < 0 \/ Z.of_nat (List.length a) <= i -> load a i = Undefined.
Proof.
  intros H. unfold load. destruct (Z.ltb_spec i 0); [reflexivity|].
  destruct (nth_error a (Z.to_nat i)) eqn:E; [|reflexivity].
  assert (nth_error a (Z.to_nat i) <> None) as Hn by congruence.
  apply nth_error_Some in Hn. lia.
Qed.

Section KahanFacts.

Context {F : Type} {RO : Real_ops F}.

(** The first loop of [testMatrix_Kahan] after [K] rounds. *)
Lemma kahan_evalue_rounds (n : Z) (x : F) (evalue : list F) (K : nat) :
  2 * Z.of_nat K <= n -> Z.of_nat (List.length evalue) = n ->
  exists e',
    foldM (fun k evalue =>
             let ev := kahan_ev n x k in
             evalue <- store evalue (k - 1) (fneg ev) ;;
             store evalue (n + 1 - k - 1) ev)
          (zrange 1 (Z.of_nat K + 1)) evalue = Returned e'
    /\ Z.of_nat (List.length e') = n
    /\ forall j,
         load e' j =
         if (0 <=? j) && (j <? Z.of_nat K)
         then Returned (fneg (kahan_ev n x (j + 1)))
         else if (n - Z.of_nat K <=? j) && (j <? n)
              then Returned (kahan_ev n x (n - j))
              else load evalue j.
Proof.
  intros HK Hlen. induction K as [|K IH].
  - exists evalue. cbn [zrange Z.of_nat]. split; [reflexivity|].
    split; [assumption|]. intros j. zcases.
  - destruct IH as (e1 & Hrun & Hlen1 & Hload); [lia|].
    replace (Z.of_nat (S K) + 1) with (Z.of_nat K + 1 + 1) by lia.
    rewrite zrange_snoc by lia. rewrite foldM_app, Hrun. cbn [bind foldM].
    replace (Z.of_nat K + 1 - 1) with (Z.of_nat K) by lia.
    rewrite store_returns by lia. cbn [bind].
    rewrite store_returns by (rewrite upd_length; lia).
    eexists. split; [reflexivity|]. split.
    + now rewrite !upd_length.
    + intros j. rewrite load_upd by (rewrite upd_length; lia).
      rewrite load_upd by lia. rewrite Hload.
      replace (Z.of_nat (S K)) with (Z.of_nat K + 1) by lia.
      zcases; subst j; do 2 f_equal; lia.
Qed.

(** The second loop of [testMatrix_Kahan] after [M] rounds. *)
Lemma kahan_diag_rounds (x : F) (diag offd : list F) (M : nat) :
  (M <= List.length diag)%nat -> (M <= List.length offd)%nat ->
  exists d' o',
    foldM (fun i '(diag, offd) =>
             diag <- store diag i (kahan_diag x i) ;;
             offd <- store offd i (of_int 1) ;;
             Returned (diag, offd))
          (zrange 0 (Z.of_nat M)) (diag, offd) = Returned (d', o')
    /\ List.length d' = List.length diag
    /\ List.length o' = List.length offd
    /\ (forall j, load d' j =
                  if (0 <=? j) && (j <? Z.of_nat M)
                  then Returned (kahan_diag x j) else load diag j)
    /\ (forall j, load o' j =
                  if (0 <=? j) && (j <? Z.of_nat M)
                  then Returned (of_int 1) else load offd j).
Proof.
  intros Hd Ho. induction M as [|M IH].
  - exists diag, offd. cbn [zrange Z.of_nat]. split; [reflexivity|].
    repeat split; intros j; zcases.
  - destruct IH as (d1 & o1 & Hrun & Hl1 & Hl2 & Hld & Hlo); [lia|lia|].
    replace (Z.of_nat (S M)) with (Z.of_nat M + 1) by lia.
    rewrite zrange_snoc by lia. rewrite foldM_app, Hrun. cbn [bind foldM].
    rewrite store_returns by lia. cbn [bind].
    rewrite store_returns by lia. cbn [bind].
    eexists. eexists. split; [reflexivity|].
    rewrite !upd_length. repeat split; try assumption.
    + intros j. rewrite load_upd by lia. rewrite Hld. zcases.
      subst j. reflexivity.
    + intros j. rewrite load_upd by lia. rewrite Hlo. zcases.
Qed.

(** With [n >= 1] and arrays of [n], [n-1] and [n] elements,
    [testMatrix_Kahan] returns, and this is what the arrays hold. *)
Lemma testMatrix_Kahan_arrays (n : Z) (x : F) (diag offd evalue : list F) :
  1 <= n ->
  Z.of_nat (List.length diag) = n ->
  Z.of_nat (List.length offd) = n - 1 ->
  Z.of_nat (List.length evalue) = n ->
  exists d' o' e',
    testMatrix_Kahan diag offd evalue n x = Returned (d', o', e')
    /\ (forall j, 0 <= j < n -> load d' j = Returned (kahan_diag x j))
    /\ (forall j, 0 <= j < n - 1 -> load o' j = Returned (of_int 1))
    /\ (forall j,
          load e' j =
          if (0 <=? j) && (j <? Z.quot n 2)
          then Returned (fneg (kahan_ev n x (j + 1)))
          else if (n - Z.quot n 2 <=? j) && (j <? n)
               then Returned (kahan_ev n x (n - j))
               else load evalue j).
Proof.
  intros Hn Hd Ho He.
  assert (Hq : 0 <= Z.quot n 2 /\ 2 * Z.quot n 2 <= n).
  { rewrite Z.quot_div_nonneg by lia. split.
    - apply Z.div_pos; lia.
    - apply Z.mul_div_le. lia. }
  destruct (kahan_evalue_rounds n x evalue (Z.to_nat (Z.quot n 2)))
    as (e' & Hrun & _ & Hload); [lia|assumption|].
  rewrite Z2Nat.id in Hrun, Hload by lia. cbv zeta in Hrun.
  destruct (kahan_diag_rounds x diag offd (Z.to_nat (n - 1)))
    as (d1 & o1 & Hrun2 & Hl1 & Hl2 & Hld & Hlo); [lia|lia|].
  rewrite Z2Nat.id in Hrun2, Hld, Hlo by lia.
  eexists. eexists. eexists. split; [|split; [|split]].
  - unfold testMatrix_Kahan. rewrite Hrun. cbn [bind].
    rewrite Hrun2. cbn [bind].
    rewrite Z.max_r by lia. rewrite store_returns by lia. cbn [bind].
    reflexivity.
  - intros j Hj. rewrite load_upd by lia. rewrite Hld. zcases.
    subst j. reflexivity.
  - intros j Hj. rewrite Hlo. zcases.
  - exact Hload.
Qed.

Lemma foldM_returns {S : Type} (body : Z -> S -> outcome S) l (s : S) :
  (forall i s, In i l -> exists s', body i s = Returned s') ->
  exists s', foldM body l s = Returned s'.
Proof.
  revert s. induction l as [|i l IH]; intros s H; cbn [foldM].
  - eauto.
  - destruct (H i s) as [s1 ->]; [now left|]. cbn [bind].
    apply IH. intros i' s' Hin. apply H. now right.
Qed.

(** C9: for an odd [n] (and arrays of [n], [n-1] and [n] elements)
    [testMatrix_Kahan] returns with the middle entry [evalue[(n-1)/2]] as it
    was before the call; the entries of [evalue] that can differ from before
    have their index in [0..n/2-1] or in [(n+1)/2..n-1]. *)
Theorem kahan_middle_untouched (n : Z) (x : F) (diag offd evalue : list F) :
  1 <= n -> Z.odd n = true ->
  Z.of_nat (List.length diag) = n ->
  Z.of_nat (List.length offd) = n - 1 ->
  Z.of_nat (List.length evalue) = n ->
  exists d' o' e',
    testMatrix_Kahan diag offd evalue n x = Returned (d', o', e')
    /\ load e' (Z.quot (n - 1) 2) = load evalue (Z.quot (n - 1) 2)
    /\ forall j, load e' j <> load evalue j ->
                 0 <= j <= Z.quot n 2 - 1 \/ Z.quot (n + 1) 2 <= j <= n - 1.
Proof.
  intros Hn Hodd Hd Ho He.
  destruct (testMatrix_Kahan_arrays n x diag offd evalue Hn Hd Ho He)
    as (d' & o' & e' & Hrun & _ & _ & Hload).
  exists d', o', e'. split; [exact Hrun|].
  apply Z.odd_spec in Hodd. destruct Hodd as [q Hq].
  assert (H1 : Z.quot n 2 = q)
    by (rewrite Z.quot_div_nonneg by lia; symmetry;
        apply Z.div_unique with 1; lia).
  assert (H2 : Z.quot (n - 1) 2 = q)
    by (rewrite Z.quot_div_nonneg by lia; symmetry;
        apply Z.div_unique with 0; lia).
  assert (H3 : Z.quot (n + 1) 2 = q + 1)
    by (rewrite Z.quot_div_nonneg by lia; symmetry;
        apply Z.div_unique with 0; lia).
  rewrite H2, H3. rewrite H1 in *. split.
  - rewrite Hload. zcases.
  - intros j Hj. rewrite Hload in Hj. revert Hj.
    zcases; intros Hj; first [lia | now contradiction Hj].
Qed.

(** C10: on arrays of [n], [n-1] and [n] elements, [testEVec] stays inside
    them and returns when [n >= 2]; when [n < 2] one of the accesses made
    before the loop is outside its array. *)
Theorem testEVec_bounds (n : Z) (diag offd X : list F) (lambda : F) :
  List.length diag = Z.to_nat n ->
  List.length offd = Z.to_nat (n - 1) ->
  List.length X = Z.to_nat n ->
  (2 <= n -> exists v, testEVec diag offd n X lambda = Returned v)
  /\ (n < 2 -> testEVec diag offd n X lambda = Undefined).
Proof.
  intros Hd Ho HX. split; intros Hn; unfold testEVec.
  - repeat match goal with
           | |- context [load ?a ?i] =>
               let H := fresh in
               destruct (load_returns a i) as [? H];
               [lia | rewrite H; cbn [bind]]
           end.
    match goal with
    | |- context [foldM ?b ?l ?s] =>
        destruct (foldM_returns b l s) as [[sm sv] Hloop]
    end.
    + intros i [sm sv] Hi. apply in_zrange in Hi.
      repeat match goal with
             | |- context [load ?a ?k] =>
                 let H := fresh in
                 destruct (load_returns a k) as [? H];
                 [lia | rewrite H; cbn [bind]]
             end.
      eauto.
    + rewrite Hloop. cbn [bind]. eauto.
  - destruct (Z.le_gt_cases n 0) as [H0|H0].
    + rewrite (load_outside diag 0) by lia. reflexivity.
    + destruct (load_returns diag 0) as [d0 ->]; [lia|]. cbn [bind].
      destruct (load_returns X 0) as [x0 ->]; [lia|]. cbn [bind].
      rewrite (load_outside offd 0) by lia. reflexivity.
Qed.

End KahanFacts.

(** The shift loop counts the binary digits of [m]. *)
Lemma shift_loop_digits (m : Z) (fuel : nat) (i : Z) :
  0 < m -> Z.log2 m + 1 < 32 ->
  1 <= i <= Z.log2 m + 1 -> Z.log2 m + 1 - i < Z.of_nat fuel ->
  shift_loop fuel m i = Returned (Z.log2 m + 1).
Proof.
  intros Hm H32. revert i. induction fuel as [|fuel IH]; intros i Hi Hf.
  - lia.
  - cbn [shift_loop]. destruct (Z.leb_spec 32 i); [lia|].
    destruct (Z.eqb_spec (Z.shiftr m i) 0) as [E|E].
    + apply Z.shiftr_eq_0_iff in E. f_equal. lia.
    + apply IH; [|lia].
      assert (~ Z.log2 m < i); [|lia].
      intros Hlt. apply E. apply Z.shiftr_eq_0_iff. right. lia.
Qed.

Lemma ceil_log2_loop_digits (m : Z) :
  1 <= m < 2 ^ 31 -> ceil_log2_loop m = Returned (Z.log2 m + 1).
Proof.
  intros Hm. assert (Z.log2 m < 31) by (apply Z.log2_lt_pow2; lia).
  assert (0 <= Z.log2 m) by apply Z.log2_nonneg.
  apply shift_loop_digits; cbn; lia.
Qed.

(** On a power of two the loop is one above the ceiling of the binary
    logarithm. *)
Lemma ceil_log2_loop_pow2 (k : Z) :
  0 <= k < 31 ->
  ceil_log2_loop (2 ^ k) = Returned (k + 1) /\ Z.log2_up (2 ^ k) = k.
Proof.
  intros Hk. split.
  - rewrite ceil_log2_loop_digits.
    + now rewrite Z.log2_pow2 by lia.
    + split; [|apply Z.pow_lt_mono_r; lia].
      assert (0 < 2 ^ k) by (apply Z.pow_pos_nonneg; lia). lia.
  - apply Z.log2_up_pow2. lia.
Qed.

(** Away from the powers of two the loop does give the ceiling. *)
Lemma ceil_log2_loop_not_pow2 (m : Z) :
  1 <= m < 2 ^ 31 -> (forall k, 0 <= k -> m <> 2 ^ k) ->
  ceil_log2_loop m = Returned (Z.log2_up m).
Proof.
  intros Hm Hk. rewrite ceil_log2_loop_digits by assumption. f_equal.
  pose proof (Z.le_log2_log2_up m) as H1.
  pose proof (Z.le_log2_up_succ_log2 m) as H2.
  destruct (Z.eq_dec (Z.log2 m) (Z.log2_up m)) as [E|E]; [|lia].
  apply Z.log2_log2_up_exact in E; [|lia].
  destruct E as [b Hb]. destruct (Z.le_gt_cases 0 b) as [Hb0|Hb0].
  - now contradiction (Hk b).
  - rewrite Z.pow_neg_r in Hb by assumption. lia.
Qed.

(** C5, at [m = 4]: the loop leaves [i = 3] where the ceiling of the binary
    logarithm is 2, so in binary64 with [eps = 2^-53] a worst eigenvector
    error of [5*eps] is accepted although it is above [2*2*eps]. *)
Theorem ceil_log2_loop_at_4 :
  ceil_log2_loop 4 = Returned 3
  /\ Z.log2_up 4 = 2
  /\ eigenvector_success 3 (PrimFloat.mul 5 0x1p-53) 0x1p-53%float = 1
  /\ fleb (PrimFloat.mul 5 0x1p-53)
          (fmul (of_int (2 * Z.log2_up 4)) 0x1p-53%float) = false.
Proof. vm_compute. repeat split. Qed.

Section DriverFacts.

Context {F : Type} {RO : Real_ops F} {FO : Float_ops F}.

Lemma load_fuel {A : Type} (a : list A) (i : Z) : load a i <> OutOfFuel.
Proof.
  unfold load. destruct (i <? 0); [discriminate|].
  destruct (nth_error a (Z.to_nat i)); discriminate.
Qed.

Lemma multiplicity_step_spec (st : driver_state F) (j : Z) (w : worst_t F)
    (broke : bool) :
  multiplicity_step st j (w, broke) <> OutOfFuel
  /\ forall w' b', multiplicity_step st j (w, broke) = Returned (w', b') ->
                   w_i w' = w_i w.
Proof.
  unfold multiplicity_step. destruct broke.
  - split; [discriminate|]. now intros w' b' [= <- _].
  - destruct (load (eigenvalues st) (evIdx w)) as [e| | |] eqn:E1;
      cbn [bind]; try (split; [try discriminate|discriminate]).
    2: { now apply load_fuel in E1. }
    destruct (load (pVal st) (w_i w)) as [p| | |] eqn:E2;
      cbn [bind]; try (split; [try discriminate|discriminate]).
    2: { now apply load_fuel in E2. }
    destruct (fltb _ _).
    + destruct (load (pMul st) (w_i w)) as [mp| | |] eqn:E3;
        cbn [bind]; try (split; [try discriminate|discriminate]).
      * split; [discriminate|]. now intros w' b' [= <- _].
      * now apply load_fuel in E3.
    + cbn [bind]. split; [discriminate|]. now intros w' b' [= <- _].
Qed.

Lemma multiplicity_loop_spec (st : driver_state F) (l : list Z)
    (w : worst_t F) (broke : bool) :
  foldM (multiplicity_step st) l (w, broke) <> OutOfFuel
  /\ forall w' b',
       foldM (multiplicity_step st) l (w, broke) = Returned (w', b') ->
       w_i w' = w_i w.
Proof.
  revert w broke. induction l as [|j l IH]; intros w broke; cbn [foldM].
  - split; [discriminate|]. now intros w' b' [= <- _].
  - destruct (multiplicity_step_spec st j w broke) as [Hf Hi].
    destruct (multiplicity_step st j (w, broke)) as [[w1 b1]| | |];
      cbn [bind]; try (split; [try discriminate|discriminate]).
    + destruct (IH w1 b1) as [Hf' Hi']. split; [exact Hf'|].
      intros w' b' H. rewrite (Hi' _ _ H). exact (Hi w1 b1 eq_refl).
    + now contradiction Hf.
Qed.

(** The fuel given to the search for the worst eigenvalue error is never
    used up: every round reads [pMul[i]] and moves [i] on. *)
Lemma worst_loop_fuel (st : driver_state F) (fuel : nat) (w : worst_t F) :
  0 <= w_i w ->
  Z.max 0 (Z.of_nat (List.length (pMul st)) - w_i w) < Z.of_nat fuel ->
  worst_loop fuel st w <> OutOfFuel.
Proof.
  revert w. induction fuel as [|fuel IH]; intros w Hi Hf.
  - lia.
  - cbn [worst_loop]. destruct (evIdx w <? st_m st); [|discriminate].
    unfold load at 1. destruct (Z.ltb_spec (w_i w) 0); [discriminate|].
    destruct (nth_error (pMul st) (Z.to_nat (w_i w))) as [mpcty|] eqn:E;
      [|discriminate].
    assert (nth_error (pMul st) (Z.to_nat (w_i w)) <> None) as Hlt
      by congruence.
    apply nth_error_Some in Hlt. cbn [bind].
    match goal with
    | |- context [foldM (multiplicity_step st) ?l (?w0, false)] =>
        destruct (multiplicity_loop_spec st l w0 false) as [Hnf Hwi];
        destruct (foldM (multiplicity_step st) l (w0, false))
          as [[w' b']| | |]
    end; cbn [bind]; try discriminate.
    + specialize (Hwi w' b' eq_refl).
      assert (w_i w' = w_i w) as Hw by (rewrite Hwi; now destruct (_ >? _)).
      apply IH; cbn [w_i]; lia.
    + now contradiction Hnf.
Qed.

(** The part of the driver that measures the eigenvalue errors never runs
    out of fuel. *)
Lemma eigenvalue_errors_fuel (st : driver_state F) :
  eigenvalue_errors st <> OutOfFuel.
Proof.
  unfold eigenvalue_errors.
  repeat match goal with
         | |- bind (load ?a ?i) _ <> _ =>
             let E := fresh in
             destruct (load a i) eqn:E; cbn [bind]; try discriminate;
             try (now apply load_fuel in E)
         end.
  match goal with
  | |- context [worst_loop ?f st ?w] =>
      pose proof (worst_loop_fuel st f w) as Hw;
      destruct (worst_loop f st w) as [w'| | |]
  end; cbn [bind]; try discriminate.
  - destruct (worstEigenvalue_eps w'); cbn [initialised bind];
      [|discriminate].
    repeat match goal with
           | |- bind (load ?a ?i) _ <> _ =>
               let E := fresh in
               destruct (load a i) eqn:E; cbn [bind]; try discriminate;
               try (now apply load_fuel in E)
           end.
  - exfalso. apply Hw; cbn [w_i]; [lia| lia | reflexivity].
Qed.

(** C8: in a run with the test switched on that reaches the check of the
    eigenvalues with worst error [w] (measured in the spacing [e]): when
    [w < 3] fails the driver returns with the success flag 0, the error
    [w*e], and without a call of [testEVec]; and a run that returns with a
    call of [testEVec] made had [w < 3]. *)
Theorem test_zstevx2_eigenvalue_gate
    (lamch_E : F) (Diag_mem Offd_mem eigenvalues_mem pVal_mem : option (list F))
    (pMul_mem : option (list Z)) (pVec_mem : Z -> option (list F))
    (wtime_start wtime_stop : F)
    (plasma_zstevx2 :
       eigt_job -> Z -> Z -> list F -> list F -> F -> F -> Z -> Z ->
       list F -> list Z -> option (list F) -> solver_result F)
    (param : param_value_t F) (st : driver_state F) (w e : F) :
  setup lamch_E Diag_mem Offd_mem eigenvalues_mem pVal_mem pMul_mem pVec_mem
        wtime_start wtime_stop plasma_zstevx2 (mark_used param)
    = Returned st ->
  test_c param = "y"%char ->
  eigenvalue_errors st = Returned (w, e) ->
  (fltb w (of_int 3) = false ->
   test_zstevx2 lamch_E Diag_mem Offd_mem eigenvalues_mem pVal_mem pMul_mem
                pVec_mem wtime_start wtime_stop plasma_zstevx2 param true
   = Returned (mk_param (dim_used (st_param st)) (dim_m (st_param st))
                        (test_c (st_param st)) (time_d (st_param st))
                        (fmul w e) 0, []))
  /\ (forall p called,
        test_zstevx2 lamch_E Diag_mem Offd_mem eigenvalues_mem pVal_mem
                     pMul_mem pVec_mem wtime_start wtime_stop plasma_zstevx2
                     param true = Returned (p, called) ->
        called <> [] -> fltb w (of_int 3) = true).
Proof.
  intros Hsetup Htest Heig.
  assert (Hrun :
    test_zstevx2 lamch_E Diag_mem Offd_mem eigenvalues_mem pVal_mem pMul_mem
                 pVec_mem wtime_start wtime_stop plasma_zstevx2 param true
    = check st).
  { unfold test_zstevx2. cbn [negb]. rewrite Hsetup. cbn [bind].
    unfold mark_used. cbn [test_c]. rewrite Htest. reflexivity. }
  rewrite Hrun. unfold check. rewrite Heig. cbn [bind success_i].
  destruct (fltb w (of_int 3)); cbn [Z.eqb].
  - split; [discriminate|reflexivity].
  - split; [reflexivity|]. intros p called [= _ <-] Hc. now contradiction Hc.
Qed.

End DriverFacts.

(** *** Kahan's matrix in real arithmetic *)

Section KahanReal.

Local Open Scope R_scope.

Lemma kahan_ev_real (n : Z) (x : R) (k : Z) :
  kahan_ev n x k = spec_eigenvalue n x k.
Proof.
  unfold kahan_ev, spec_eigenvalue. cbn.
  rewrite plus_IZR, Rplus_0_r. f_equal. ring.
Qed.

Lemma kahan_diag_real (x : R) (j : Z) :
  kahan_diag x j = if Z.even j then x else - x.
Proof.
  unfold kahan_diag. cbn.
  replace (Z.land j 1 =? 0)%Z with (Z.even j); [now destruct (Z.even j)|].
  change 1%Z with (Z.ones 1). rewrite Z.land_ones by lia.
  rewrite Zeven_mod. change (2 ^ 1)%Z with 2%Z.
  now destruct (j mod 2)%Z.
Qed.

Lemma kahan_angle (n k : Z) :
  (1 <= k)%Z -> (2 * k <= n)%Z ->
  0 <= PI * IZR k / IZR (n + 1) <= PI / 2.
Proof.
  intros H1 H2. pose proof PI_RGT_0 as Hpi.
  assert (Hk : 1 <= IZR k) by now apply IZR_le.
  assert (Hn : 2 * IZR k <= IZR (n + 1)).
  { rewrite <- mult_IZR. apply IZR_le. lia. }
  assert (Hc : 0 < IZR (n + 1)) by lra.
  assert (Hi : 0 < / IZR (n + 1)) by now apply Rinv_0_lt_compat.
  assert (Hr : IZR k * / IZR (n + 1) <= / 2).
  { apply Rmult_le_reg_r with (IZR (n + 1)); [assumption|].
    rewrite Rmult_assoc, Rinv_l by lra. lra. }
  unfold Rdiv. rewrite Rmult_assoc. split.
  - apply Rmult_le_pos; [lra|]. apply Rmult_le_pos; lra.
  - apply Rmult_le_compat_l; lra.
Qed.

Lemma spec_eigenvalue_pos (n : Z) (x : R) (k : Z) :
  0 <= spec_eigenvalue n x k.
Proof. apply sqrt_pos. Qed.

(** The eigenvalues get smaller as [k] grows, up to [k = n/2]. *)
Lemma spec_eigenvalue_decr (n : Z) (x : R) (k1 k2 : Z) :
  (1 <= k1 <= k2)%Z -> (2 * k2 <= n)%Z ->
  spec_eigenvalue n x k2 <= spec_eigenvalue n x k1.
Proof.
  intros H1 H2. pose proof PI_RGT_0 as Hpi.
  destruct (kahan_angle n k1) as [Ha1 Hb1]; [lia|lia|].
  destruct (kahan_angle n k2) as [Ha2 Hb2]; [lia|lia|].
  assert (Hle : PI * IZR k1 / IZR (n + 1) <= PI * IZR k2 / IZR (n + 1)).
  { assert (Hk : 1 <= IZR k1) by (apply IZR_le; lia).
    assert (Hn : 2 * IZR k2 <= IZR (n + 1)).
    { rewrite <- mult_IZR. apply IZR_le. lia. }
    assert (Hkk : IZR k1 <= IZR k2) by (apply IZR_le; lia).
    assert (Hi : 0 < / IZR (n + 1)) by (apply Rinv_0_lt_compat; lra).
    unfold Rdiv. apply Rmult_le_compat_r; [lra|].
    apply Rmult_le_compat_l; lra. }
  assert (Hcos : Rtrigo_def.cos (PI * IZR k2 / IZR (n + 1))
                 <= Rtrigo_def.cos (PI * IZR k1 / IZR (n + 1))).
  { apply cos_decr_1; lra. }
  assert (Hc2 : 0 <= Rtrigo_def.cos (PI * IZR k2 / IZR (n + 1))).
  { apply cos_ge_0; lra. }
  unfold spec_eigenvalue. apply sqrt_le_1_alt.
  apply Rplus_le_compat_l. apply Rmult_le_compat_l; [lra|].
  apply Rmult_le_compat; lra.
Qed.

(** C7: in real arithmetic, for [n >= 1] and arrays of [n], [n-1] and [n]
    elements, [testMatrix_Kahan] returns with [+x] on the even and [-x] on
    the odd places of the diagonal, 1 on the off-diagonal, and, for [k] from
    1 to [n/2], [evalue[k-1] = -sqrt(x^2 + 4 cos^2(pi k/(n+1)))] and
    [evalue[n-k] = +sqrt(x^2 + 4 cos^2(pi k/(n+1)))]; the entries it stores
    are symmetric about zero and ascend with the index. *)
Theorem kahan_spectrum (n : Z) (x : R) (diag offd evalue : list R) :
  (1 <= n)%Z ->
  Z.of_nat (List.length diag) = n ->
  Z.of_nat (List.length offd) = (n - 1)%Z ->
  Z.of_nat (List.length evalue) = n ->
  exists d' o' e',
    testMatrix_Kahan diag offd evalue n x = Returned (d', o', e')
    /\ (forall j, (0 <= j < n)%Z ->
                  load d' j = Returned (if Z.even j then x else - x))
    /\ (forall j, (0 <= j < n - 1)%Z -> load o' j = Returned 1)
    /\ (forall k, (1 <= k <= Z.quot n 2)%Z ->
                  load e' (k - 1) = Returned (- spec_eigenvalue n x k)
                  /\ load e' (n - k) = Returned (spec_eigenvalue n x k))
    /\ (forall i a b, stored n i ->
                      load e' i = Returned a ->
                      load e' (n - 1 - i) = Returned b -> a = - b)
    /\ (forall i j a b, stored n i -> stored n j -> (i < j)%Z ->
                        load e' i = Returned a -> load e' j = Returned b ->
                        a <= b).
Proof.
  intros Hn Hd Ho He.
  destruct (testMatrix_Kahan_arrays n x diag offd evalue Hn Hd Ho He)
    as (d' & o' & e' & Hrun & Hdiag & Hoffd & Hload).
  assert (Hq : (0 <= Z.quot n 2 /\ 2 * Z.quot n 2 <= n)%Z).
  { rewrite Z.quot_div_nonneg by lia. split.
    - apply Z.div_pos; lia.
    - apply Z.mul_div_le. lia. }
  assert (Hlow : forall i, (0 <= i < Z.quot n 2)%Z ->
                 load e' i = Returned (- spec_eigenvalue n x (i + 1))).
  { intros i Hi. rewrite Hload. rewrite kahan_ev_real.
    destruct (Z.leb_spec 0 i), (Z.ltb_spec i (Z.quot n 2)); cbn [andb];
      try lia. reflexivity. }
  assert (Hhigh : forall i, (n - Z.quot n 2 <= i < n)%Z ->
                  load e' i = Returned (spec_eigenvalue n x (n - i))).
  { intros i Hi. rewrite Hload. rewrite !kahan_ev_real.
    destruct (Z.leb_spec 0 i), (Z.ltb_spec i (Z.quot n 2)),
      (Z.leb_spec (n - Z.quot n 2) i), (Z.ltb_spec i n); cbn [andb];
      try lia; reflexivity. }
  exists d', o', e'. split; [exact Hrun|]. split; [|split; [|split; [|split]]].
  - intros j Hj. rewrite Hdiag by assumption. now rewrite kahan_diag_real.
  - intros j Hj. now rewrite Hoffd.
  - intros k Hk. split.
    + rewrite Hlow by lia. do 3 f_equal. lia.
    + rewrite Hhigh by lia. do 2 f_equal. lia.
  - intros i a b [Hi|Hi] Ha Hb.
    + rewrite Hlow in Ha by assumption. rewrite Hhigh in Hb by lia.
      injection Ha as <-. injection Hb as <-. do 2 f_equal. lia.
    + rewrite Hhigh in Ha by assumption. rewrite Hlow in Hb by lia.
      injection Ha as <-. injection Hb as <-. rewrite Ropp_involutive.
      f_equal. lia.
  - intros i j a b [Hi|Hi] [Hj|Hj] Hij Ha Hb.
    + rewrite Hlow in Ha, Hb by assumption.
      injection Ha as <-. injection Hb as <-.
      apply Ropp_le_contravar. apply spec_eigenvalue_decr; lia.
    + rewrite Hlow in Ha by assumption. rewrite Hhigh in Hb by assumption.
      injection Ha as <-. injection Hb as <-.
      pose proof (spec_eigenvalue_pos n x (i + 1)).
      pose proof (spec_eigenvalue_pos n x (n - j)). lra.
    + lia.
    + rewrite Hhigh in Ha, Hb by assumption.
      injection Ha as <-. injection Hb as <-.
      apply spec_eigenvalue_decr; lia.
Qed.

Lemma kahan_spectrum_witness :
  exists d' o' e',
    testMatrix_Kahan [7; 7] [7] [7; 7] 2 (/ 2) = Returned (d', o', e')
    /\ (forall j, (0 <= j < 2)%Z ->
                  load d' j = Returned (if Z.even j then / 2 else - / 2))
    /\ (forall j, (0 <= j < 2 - 1)%Z -> load o' j = Returned 1)
    /\ (forall k, (1 <= k <= Z.quot 2 2)%Z ->
                  load e' (k - 1) = Returned (- spec_eigenvalue 2 (/ 2) k)
                  /\ load e' (2 - k) = Returned (spec_eigenvalue 2 (/ 2) k))
    /\ (forall i a b, stored 2 i ->
                      load e' i = Returned a ->
                      load e' (2 - 1 - i) = Returned b -> a = - b)
    /\ (forall i j a b, stored 2 i -> stored 2 j -> (i < j)%Z ->
                        load e' i = Returned a -> load e' j = Returned b ->
                        a <= b).
Proof.
  apply (kahan_spectrum 2 (/ 2) [7; 7] [7] [7; 7]).
  - lia.
  - reflexivity.
  - reflexivity.
  - reflexivity.
Defined.

End KahanReal.

(** *** Runs in binary64

    The decimal numerals below stand for the binary64 values nearest to
    them. *)

#[local] Set Warnings "-inexact-float".

(** Kahan's matrix of order 8 with [x = 1e-5]. *)
Example kahan_8 :
  testMatrix_Kahan (repeat 0%float 8) (repeat 0%float 7) (repeat 0%float 8)
                   8 (of_dec 1 (-5))
  = Returned
      ([1.0000000000000001e-05; -1.0000000000000001e-05;
        1.0000000000000001e-05; -1.0000000000000001e-05;
        1.0000000000000001e-05; -1.0000000000000001e-05;
        1.0000000000000001e-05; -1.0000000000000001e-05]%float,
       [1; 1; 1; 1; 1; 1; 1]%float,
       [-1.8793852415984214; -1.5320888862705915; -1.0000000000500002;
        -0.34729635547783033; 0.34729635547783033; 1.0000000000500002;
        1.5320888862705915; 1.8793852415984214]%float).
Proof. vm_compute. reflexivity. Qed.

(** Order 3: the middle entry of [evalue] keeps the 9 it held. *)
Example kahan_3 :
  testMatrix_Kahan (repeat 9%float 3) (repeat 9%float 2) (repeat 9%float 3)
                   3 (of_dec 1 (-5))
  = Returned
      ([1.0000000000000001e-05; -1.0000000000000001e-05;
        1.0000000000000001e-05]%float,
       [1; 1]%float,
       [-1.4142135624084506; 9; 1.4142135624084506]%float).
Proof. vm_compute. reflexivity. Qed.

Lemma kahan_middle_untouched_witness :
  exists d' o' e',
    testMatrix_Kahan [9; 9; 9]%float [9; 9]%float [9; 9; 9]%float 3
                     1.0000000000000001e-05%float
    = Returned (d', o', e')
    /\ load e' (Z.quot (3 - 1) 2) = load [9; 9; 9]%float (Z.quot (3 - 1) 2)
    /\ forall j, load e' j <> load [9; 9; 9]%float j ->
                 0 <= j <= Z.quot 3 2 - 1 \/ Z.quot (3 + 1) 2 <= j <= 3 - 1.
Proof.
  apply (kahan_middle_untouched 3 1.0000000000000001e-05%float
           [9; 9; 9]%float [9; 9]%float [9; 9; 9]%float).
  - lia.
  - reflexivity.
  - reflexivity.
  - reflexivity.
  - reflexivity.
Defined.

(** [testEVec] on a matrix of order 1 reads [offd[0]], which is not there. *)
Example testEVec_order_1 :
  testEVec [1%float] [] 1 [1%float] 2%float = Undefined.
Proof. reflexivity. Qed.

Lemma testEVec_bounds_witness :
  (2 <= 3 -> exists v,
     testEVec [1; 2; 3]%float [1; 1]%float 3 [1; 0; 1]%float 2%float
     = Returned v)
  /\ (3 < 2 ->
      testEVec [1; 2; 3]%float [1; 1]%float 3 [1; 0; 1]%float 2%float
      = Undefined).
Proof.
  apply (testEVec_bounds 3 [1; 2; 3]%float [1; 1]%float [1; 0; 1]%float
           2%float).
  - reflexivity.
  - reflexivity.
  - reflexivity.
Defined.

Lemma test_zstevx2_eigenvalue_gate_witness :
  exists st w e,
    example_setup = Returned st
    /\ eigenvalue_errors st = Returned (w, e)
    /\ fltb w (of_int 3) = false
    /\ example_run
       = Returned (mk_param (dim_used (st_param st)) (dim_m (st_param st))
                            (test_c (st_param st)) (time_d (st_param st))
                            (fmul w e) 0, []).
Proof.
  eexists. eexists. eexists.
  split; [vm_compute; reflexivity|].
  split; [vm_compute; reflexivity|].
  split; [vm_compute; reflexivity|].
  refine (proj1 (test_zstevx2_eigenvalue_gate
                   0x1p-53%float (Some [0; 0]%float) (Some [0]%float)
                   (Some [0; 0]%float) (Some [0; 0]%float) (Some [0; 0])
                   (fun k => Some (repeat 0%float (Z.to_nat k)))
                   0%float 1%float example_solver example_param
                   _ _ _ _ _ _) _).
  - vm_compute. reflexivity.
  - reflexivity.
  - vm_compute. reflexivity.
  - vm_compute. reflexivity.
Defined.

(** *** More on Kahan's matrix and on the loops of the driver *)

Section KahanEdges.

Context {F : Type} {RO : Real_ops F}.

(** For [n <= 0] neither loop of [testMatrix_Kahan] runs and the assignment
    after them still writes [diag[0]]: outside the array when [diag] has no
    element, and [+myDiag] into its first element otherwise. *)
Theorem kahan_order_0 (n : Z) (x : F) (diag offd evalue : list F) :
  n <= 0 ->
  testMatrix_Kahan diag offd evalue n x
  = match diag with
    | [] => Undefined
    | _ :: diag' => Returned (x :: diag', offd, evalue)
    end.
Proof.
  intros Hn. unfold testMatrix_Kahan.
  assert (Z.quot n 2 <= 0) as Hq.
  { change 0 with (Z.quot 0 2). apply Z.quot_le_mono; lia. }
  rewrite (zrange_nil 1) by lia. rewrite (zrange_nil 0) by lia.
  cbn [foldM bind]. rewrite Z.max_l by lia.
  destruct diag as [|d diag']; reflexivity.
Qed.

(** In any arithmetic, for [n >= 1] and arrays of [n], [n-1] and [n]
    elements: the entry [i < n/2] of [evalue] is the negation [fneg] of
    the entry [n-1-i], and the arrays keep their lengths. *)
Theorem kahan_antisymmetric (n : Z) (x : F) (diag offd evalue : list F) :
  1 <= n ->
  Z.of_nat (List.length diag) = n ->
  Z.of_nat (List.length offd) = n - 1 ->
  Z.of_nat (List.length evalue) = n ->
  exists d' o' e',
    testMatrix_Kahan diag offd evalue n x = Returned (d', o', e')
    /\ forall i, 0 <= i < Z.quot n 2 ->
         exists v, load e' (n - 1 - i) = Returned v
                   /\ load e' i = Returned (fneg v).
Proof.
  intros Hn Hd Ho He.
  destruct (testMatrix_Kahan_arrays n x diag offd evalue Hn Hd Ho He)
    as (d' & o' & e' & Hrun & _ & _ & Hload).
  exists d', o', e'. split; [exact Hrun|]. intros i Hi.
  assert (Hq : 2 * Z.quot n 2 <= n).
  { rewrite Z.quot_div_nonneg by lia. apply Z.mul_div_le. lia. }
  exists (kahan_ev n x (i + 1)). rewrite !Hload. split.
  - zcases. do 2 f_equal. lia.
  - zcases.
Qed.

End KahanEdges.

(** The shift loop brackets [m] between two powers of two: it returns the
    [i] with [2^(i-1) <= m < 2^i]. *)
Theorem ceil_log2_loop_bracket (m : Z) :
  1 <= m < 2 ^ 31 ->
  exists i, ceil_log2_loop m = Returned i
            /\ 1 <= i <= 31 /\ 2 ^ (i - 1) <= m < 2 ^ i.
Proof.
  intros Hm. exists (Z.log2 m + 1).
  split; [now apply ceil_log2_loop_digits|].
  pose proof (Z.log2_nonneg m) as H0.
  assert (Z.log2 m < 31) by (apply Z.log2_lt_pow2; lia).
  destruct (Z.log2_spec m) as [H1 H2]; [lia|].
  replace (Z.log2 m + 1 - 1) with (Z.log2 m) by lia.
  replace (Z.log2 m + 1) with (Z.succ (Z.log2 m)) by lia. lia.
Qed.

Lemma shift_loop_negative (m : Z) (fuel : nat) (i : Z) :
  m < 0 -> 1 <= i <= 32 -> 32 - i < Z.of_nat fuel ->
  shift_loop fuel m i = Undefined.
Proof.
  intros Hm. revert i. induction fuel as [|fuel IH]; intros i Hi Hf.
  - lia.
  - cbn [shift_loop]. destruct (Z.leb_spec 32 i); [reflexivity|].
    destruct (Z.eqb_spec (Z.shiftr m i) 0) as [E|E].
    + pose proof (proj2 (Z.shiftr_neg m i) Hm). lia.
    + apply IH; lia.
Qed.

(** For a matrix of order 0 the loop returns 1; for a negative [m] the
    shifted value never becomes 0 and the shift count reaches the width of
    [int]. *)
Theorem ceil_log2_loop_not_positive :
  ceil_log2_loop 0 = Returned 1
  /\ forall m, m < 0 -> ceil_log2_loop m = Undefined.
Proof.
  split; [reflexivity|].
  intros m Hm. apply shift_loop_negative; cbn; lia.
Qed.

Section DriverLoops.

Context {F : Type} {RO : Real_ops F} {FO : Float_ops F}.

(** The position in [eigenvalues] while multiplicities are followed: either
    the loop was left through [break] with [evIdx == m], or [evIdx < m]. *)
Definition evIdx_inv (st : driver_state F) (wb : worst_t F * bool) : Prop :=
  if snd wb then evIdx (fst wb) = st_m st else evIdx (fst wb) < st_m st.

Lemma multiplicity_step_evIdx (st : driver_state F) j wb wb' :
  multiplicity_step st j wb = Returned wb' ->
  evIdx_inv st wb -> evIdx_inv st wb'.
Proof.
  destruct wb as [w b], wb' as [w' b']. unfold multiplicity_step, evIdx_inv.
  cbn [fst snd]. destruct b.
  - now intros [= <- <-].
  - destruct (load (eigenvalues st) (evIdx w)); cbn [bind]; try discriminate.
    destruct (load (pVal st) (w_i w)); cbn [bind]; try discriminate.
    destruct (fltb _ _).
    + destruct (load (pMul st) (w_i w)); cbn [bind]; try discriminate.
      intros [= <- <-]. cbn [evIdx]. intros H. zcases.
    + cbn [bind]. intros [= <- <-]. cbn [evIdx]. intros H. zcases.
Qed.

Lemma multiplicity_loop_evIdx (st : driver_state F) l wb wb' :
  foldM (multiplicity_step st) l wb = Returned wb' ->
  evIdx_inv st wb -> evIdx_inv st wb'.
Proof.
  revert wb. induction l as [|j l IH]; intros wb; cbn [foldM].
  - now intros [= <-].
  - destruct (multiplicity_step st j wb) as [wb1| | |] eqn:E; cbn [bind];
      try discriminate.
    intros H Hinv. apply (IH wb1 H).
    now apply (multiplicity_step_evIdx st j wb).
Qed.

(** The search for the worst eigenvalue error started at or before the
    end of [eigenvalues] never steps over it: when the loop returns, [evIdx]
    is [m]. *)
Theorem worst_loop_stops_at_m (st : driver_state F) (fuel : nat)
    (w w' : worst_t F) :
  evIdx w <= st_m st ->
  worst_loop fuel st w = Returned w' ->
  evIdx w' = st_m st.
Proof.
  revert w. induction fuel as [|fuel IH]; intros w Hle; cbn [worst_loop].
  - discriminate.
  - destruct (Z.ltb_spec (evIdx w) (st_m st)) as [Hlt|Hge].
    2: { intros [= <-]. lia. }
    destruct (load (pMul st) (w_i w)) as [mpcty| | |]; cbn [bind];
      try discriminate.
    match goal with
    | |- context [foldM (multiplicity_step st) ?l (?w0, false)] =>
        pose proof (multiplicity_loop_evIdx st l (w0, false)) as Hinv;
        destruct (foldM (multiplicity_step st) l (w0, false))
          as [[w1 b1]| | |]
    end; cbn [bind]; try discriminate.
    intros Hr. refine (IH _ _ Hr). cbn [evIdx].
    specialize (Hinv (w1, b1) eq_refl). unfold evIdx_inv in Hinv.
    cbn [fst snd] in Hinv.
    assert (evIdx (if mpcty >? max_mpcty w
                   then mk_worst (w_i w) (evIdx w) (worstEigenvalue_error w)
                          (worstEigenvalue_eps w) (worstEigenvalue_index w)
                          (worstEigenvalue_mpcty w) mpcty
                   else w) < st_m st) as H0
      by (now destruct (mpcty >? max_mpcty w)).
    specialize (Hinv H0). destruct b1; lia.
Qed.

Lemma load_cases {A : Type} (a : list A) (i : Z) :
  (exists v, load a i = Returned v) \/ load a i = Undefined.
Proof.
  unfold load. destruct (i <? 0); [now right|].
  destruct (nth_error a (Z.to_nat i)); [left; eauto|now right].
Qed.

Lemma worst_loop_zero_multiplicities (st : driver_state F) (fuel : nat)
    (w : worst_t F) :
  (forall k v, nth_error (pMul st) k = Some v -> v <= 0) ->
  evIdx w < st_m st -> 0 <= w_i w ->
  Z.max 0 (Z.of_nat (List.length (pMul st)) - w_i w) < Z.of_nat fuel ->
  worst_loop fuel st w = Undefined.
Proof.
  intros Hz. revert w. induction fuel as [|fuel IH]; intros w He Hi Hf.
  - lia.
  - cbn [worst_loop]. destruct (Z.ltb_spec (evIdx w) (st_m st)); [|lia].
    unfold load. destruct (Z.ltb_spec (w_i w) 0); [lia|].
    destruct (nth_error (pMul st) (Z.to_nat (w_i w))) as [mpcty|] eqn:E;
      [|reflexivity].
    assert (nth_error (pMul st) (Z.to_nat (w_i w)) <> None) as Hlt
      by congruence.
    apply nth_error_Some in Hlt. apply Hz in E. cbn [bind].
    rewrite zrange_nil by lia. cbn [foldM bind].
    destruct (mpcty >? max_mpcty w); apply IH; cbn [evIdx w_i]; lia.
Qed.

(** When the solver counted at least one eigenvalue and no multiplicity it
    reports is positive, the search never advances in [eigenvalues] and
    walks off the end of [pMul]: the check is undefined behaviour. *)
Theorem check_zero_multiplicities (st : driver_state F) :
  (forall k v, nth_error (pMul st) k = Some v -> v <= 0) ->
  1 <= nEigVals st ->
  check st = Undefined.
Proof.
  intros Hz Hn. unfold check, eigenvalue_errors.
  repeat match goal with
         | |- bind (bind (load ?a ?i) _) _ = _ =>
             destruct (load_cases a i) as [[? ->]| ->]; cbn [bind];
             [|reflexivity]
         end.
  rewrite worst_loop_zero_multiplicities; cbn [evIdx w_i];
    [reflexivity|assumption|lia|lia|lia].
Qed.

Lemma eigenvector_loop_calls (st : driver_state F) l acc acc' :
  foldM (fun i '(worstEigenvector_error, worstEigenvector_index, called) =>
           X <- suffix (pVec st) (st_m st * i) ;;
           lambda <- load (pVal st) i ;;
           vErr <- testEVec (Diag st) (Offd st) (st_m st) X lambda ;;
           if fltb worstEigenvector_error vErr
           then Returned (vErr, i, called ++ [i])
           else Returned (worstEigenvector_error, worstEigenvector_index,
                          called ++ [i]))
        l acc = Returned acc' ->
  snd acc' = snd acc ++ l.
Proof.
  revert acc. induction l as [|i l IH]; intros [[a b] called];
    cbn [foldM].
  - intros [= <-]. cbn [snd]. now rewrite app_nil_r.
  - destruct (suffix (pVec st) (st_m st * i)); cbn [bind]; try discriminate.
    destruct (load (pVal st) i); cbn [bind]; try discriminate.
    destruct (testEVec _ _ _ _ _) as [vErr| | |]; cbn [bind];
      try discriminate.
    destruct (fltb a vErr); intros H; apply IH in H; rewrite H;
      cbn [snd]; now rewrite <- app_assoc.
Qed.

(** When the check returns, [testEVec] was called once for each of the
    [vectorsFound] vectors, in order, if the eigenvalues passed, and not at
    all if they did not. *)
Theorem check_calls (st : driver_state F) p called :
  check st = Returned (p, called) ->
  exists w e,
    eigenvalue_errors st = Returned (w, e)
    /\ called = if fltb w (of_int 3)
                then zrange 0 (vectorsFound st) else [].
Proof.
  unfold check.
  destruct (eigenvalue_errors st) as [[w e]| | |]; cbn [bind];
    try discriminate.
  intros H. exists w, e. split; [reflexivity|]. revert H. cbn [success_i].
  destruct (fltb w (of_int 3)); cbn [Z.eqb].
  - unfold eigenvector_errors.
    match goal with
    | |- context [foldM ?b ?l ?a] =>
        pose proof (eigenvector_loop_calls st l a) as Hc;
        destruct (foldM b l a) as [[[wv iv] cs]| | |]
    end; cbn [bind]; try discriminate.
    destruct (ceil_log2_loop (st_m st)); cbn [bind]; try discriminate.
    intros [= _ <-]. exact (Hc _ eq_refl).
  - now intros [= _ <-].
Qed.

End DriverLoops.

(** *** The driver never runs out of fuel *)

Lemma bind_fuel {A B : Type} (c : outcome A) (k : A -> outcome B) :
  c <> OutOfFuel -> (forall a, k a <> OutOfFuel) -> bind c k <> OutOfFuel.
Proof. intros Hc Hk. destruct c; cbn [bind]; auto; discriminate. Qed.

Lemma foldM_fuel {S : Type} (body : Z -> S -> outcome S) l (s : S) :
  (forall i s, body i s <> OutOfFuel) -> foldM body l s <> OutOfFuel.
Proof.
  intros Hb. revert s. induction l as [|i l IH]; intros s; cbn [foldM].
  - discriminate.
  - apply bind_fuel; auto.
Qed.

Lemma store_fuel {A : Type} (a : list A) i v : store a i v <> OutOfFuel.
Proof. unfold store. destruct (_ && _); discriminate. Qed.

Lemma suffix_fuel {A : Type} (a : list A) k : suffix a k <> OutOfFuel.
Proof. unfold suffix. destruct (_ && _); discriminate. Qed.

Lemma allocated_fuel {A : Type} (p : option (list A)) :
  allocated p <> OutOfFuel.
Proof. destruct p; discriminate. Qed.

Lemma shift_loop_fuel (m : Z) (fuel : nat) (i : Z) :
  Z.max 0 (32 - i) < Z.of_nat fuel -> shift_loop fuel m i <> OutOfFuel.
Proof.
  revert i. induction fuel as [|fuel IH]; intros i Hf.
  - lia.
  - cbn [shift_loop]. destruct (Z.leb_spec 32 i); [discriminate|].
    destruct (Z.shiftr m i =? 0); [discriminate|]. apply IH. lia.
Qed.

(** One step towards a goal [c <> OutOfFuel]. *)
Ltac fuel_step :=
  first
    [ apply load_fuel | apply store_fuel | apply suffix_fuel
    | apply allocated_fuel | discriminate
    | apply bind_fuel; [|intros ?]
    | apply foldM_fuel; intros ? ?
    | match goal with
      | |- (let '(_, _) := ?x in _) <> _ => destruct x
      | |- (if ?b then _ else _) <> _ => destruct b
      end ].

Section DriverFuel.

Context {F : Type} {RO : Real_ops F} {FO : Float_ops F}.

Lemma testMatrix_Kahan_fuel (diag offd evalue : list F) n x :
  testMatrix_Kahan diag offd evalue n x <> OutOfFuel.
Proof. unfold testMatrix_Kahan. repeat fuel_step. Qed.

Lemma testEVec_fuel (diag offd X : list F) n lambda :
  testEVec diag offd n X lambda <> OutOfFuel.
Proof. unfold testEVec. repeat fuel_step. Qed.

(** For every solver, every answer of [malloc], every clock and every
    [param], [test_zstevx2] ends within the fuel of its loops: the search
    for the worst eigenvalue error and the shift loop both stop. *)
Theorem test_zstevx2_terminates
    (lamch_E : F) (Diag_mem Offd_mem eigenvalues_mem pVal_mem : option (list F))
    (pMul_mem : option (list Z)) (pVec_mem : Z -> option (list F))
    (wtime_start wtime_stop : F)
    (plasma_zstevx2 :
       eigt_job -> Z -> Z -> list F -> list F -> F -> F -> Z -> Z ->
       list F -> list Z -> option (list F) -> solver_result F)
    (param : param_value_t F) (run : bool) :
  test_zstevx2 lamch_E Diag_mem Offd_mem eigenvalues_mem pVal_mem pMul_mem
               pVec_mem wtime_start wtime_stop plasma_zstevx2 param run
  <> OutOfFuel.
Proof.
  unfold test_zstevx2. destruct run; cbn [negb]; [|discriminate].
  apply bind_fuel.
  - unfold setup. repeat fuel_step.
  - intros st. destruct (Ascii.eqb _ _); [|discriminate].
    unfold check. apply bind_fuel; [apply eigenvalue_errors_fuel|].
    intros [w e]. cbn [success_i].
    destruct (_ =? 0); [discriminate|].
    apply bind_fuel.
    + unfold eigenvector_errors. apply foldM_fuel. intros i [[a b] c].
      repeat fuel_step.
    + intros [[a b] c]. apply bind_fuel; [|discriminate].
      apply shift_loop_fuel. cbn. lia.
Qed.

End DriverFuel.

(** *** What the driver leaves in [param] *)

Section DriverFrame.

Context {F : Type} {RO : Real_ops F} {FO : Float_ops F}.

Variable lamch_E : F.
Variable Diag_mem Offd_mem eigenvalues_mem pVal_mem : option (list F).
Variable pMul_mem : option (list Z).
Variable pVec_mem : Z -> option (list F).
Variable wtime_start wtime_stop : F.
Variable plasma_zstevx2 :
  eigt_job -> Z -> Z -> list F -> list F -> F -> F -> Z -> Z ->
  list F -> list Z -> option (list F) -> solver_result F.

Local Abbreviation setup' :=
  (setup lamch_E Diag_mem Offd_mem eigenvalues_mem pVal_mem pMul_mem pVec_mem
         wtime_start wtime_stop plasma_zstevx2).

Local Abbreviation test_zstevx2' :=
  (test_zstevx2 lamch_E Diag_mem Offd_mem eigenvalues_mem pVal_mem pMul_mem
                pVec_mem wtime_start wtime_stop plasma_zstevx2).

Lemma allocated_returned {A : Type} (p : option (list A)) a :
  allocated p = Returned a -> p = Some a.
Proof. destruct p; [now intros [= ->]|discriminate]. Qed.

Lemma setup_inv (param : param_value_t F) (st : driver_state F) :
  setup' param = Returned st ->
  1 <= nEigVals st
  /\ st_m st = dim_m param
  /\ st_eps st = lamch_E
  /\ st_param st = mk_param (dim_used param) (dim_m param) (test_c param)
                            (fsub wtime_stop wtime_start)
                            (error_d param) (success_i param)
  /\ exists D O E,
       Diag_mem = Some D /\ Offd_mem = Some O /\ eigenvalues_mem = Some E
       /\ testMatrix_Kahan D O E (dim_m param) (of_dec 1 (-5))
          = Returned (Diag st, Offd st, eigenvalues st).
Proof.
  unfold setup.
  destruct (allocated Diag_mem) as [D| | |] eqn:ED; cbn [bind];
    try discriminate.
  destruct (allocated Offd_mem) as [O| | |] eqn:EO; cbn [bind];
    try discriminate.
  destruct (allocated eigenvalues_mem) as [E| | |] eqn:EE; cbn [bind];
    try discriminate.
  destruct (allocated pVal_mem) as [V| | |]; cbn [bind]; try discriminate.
  destruct (allocated pMul_mem) as [M| | |]; cbn [bind]; try discriminate.
  destruct (testMatrix_Kahan D O E (dim_m param) (of_dec 1 (-5)))
    as [[[D' O'] E']| | |] eqn:EK; cbn [bind]; try discriminate.
  destruct (condition_number E' (dim_m param)); cbn [bind];
    try discriminate.
  match goal with
  | |- context [found ?r <? 1] =>
      destruct (Z.ltb_spec (found r) 1) as [Hlt|Hge]
  end; [discriminate|].
  destruct (allocated (pVec_mem _)); cbn [bind]; try discriminate.
  intros [= <-]. cbn.
  repeat split; try assumption.
  exists D, O, E. repeat split; auto using allocated_returned.
Qed.

(** A state the set-up returns has at least one eigenvalue counted by the
    solver (the [assert] stopped the other runs), the order and the epsilon
    of the call, and as [Diag], [Offd] and [eigenvalues] the arrays
    [testMatrix_Kahan] built with [x = 1e-5] in the memory [malloc] gave. *)
Theorem setup_state (param : param_value_t F) (st : driver_state F) :
  setup' param = Returned st ->
  1 <= nEigVals st
  /\ st_m st = dim_m param
  /\ st_eps st = lamch_E
  /\ exists D O E,
       Diag_mem = Some D /\ Offd_mem = Some O /\ eigenvalues_mem = Some E
       /\ testMatrix_Kahan D O E (dim_m param) (of_dec 1 (-5))
          = Returned (Diag st, Offd st, eigenvalues st).
Proof.
  intros H. destruct (setup_inv param st H) as (H1 & H2 & H3 & _ & H5).
  repeat split; assumption.
Qed.

Lemma check_param (st : driver_state F) p called :
  check st = Returned (p, called) ->
  dim_used p = dim_used (st_param st)
  /\ dim_m p = dim_m (st_param st)
  /\ test_c p = test_c (st_param st)
  /\ time_d p = time_d (st_param st)
  /\ (success_i p = 0 \/ success_i p = 1).
Proof.
  unfold check.
  destruct (eigenvalue_errors st) as [[w e]| | |]; cbn [bind];
    try discriminate.
  cbn [success_i]. destruct (fltb w (of_int 3)); cbn [Z.eqb].
  - destruct (eigenvector_errors st) as [[[wv iv] cs]| | |]; cbn [bind];
      try discriminate.
    destruct (ceil_log2_loop (st_m st)); cbn [bind]; try discriminate.
    intros [= <- _]. cbn. unfold eigenvector_success.
    destruct (fleb _ _); repeat split; auto.
  - intros [= <- _]. cbn. repeat split; auto.
Qed.

(** Whatever the solver, the memory and the clock: when [test_zstevx2]
    returns, the used flag of the dimension is set and the order and the
    test switch of [param] are as they were; without [run] nothing else
    changed and [testEVec] was not called; with [run] the time entry is
    [stop - start]; with the test switched off the error and success
    entries are as they were and [testEVec] was not called; with it
    switched on the success entry is 0 or 1. *)
Theorem test_zstevx2_frame (param : param_value_t F) (run : bool) p called :
  test_zstevx2' param run = Returned (p, called) ->
  dim_used p = true
  /\ dim_m p = dim_m param
  /\ test_c p = test_c param
  /\ (run = false ->
      time_d p = time_d param /\ error_d p = error_d param
      /\ success_i p = success_i param /\ called = [])
  /\ (run = true ->
      time_d p = fsub wtime_stop wtime_start
      /\ (test_c param <> "y"%char ->
          error_d p = error_d param /\ success_i p = success_i param
          /\ called = [])
      /\ (test_c param = "y"%char -> success_i p = 0 \/ success_i p = 1)).
Proof.
  unfold test_zstevx2. destruct run; cbn [negb].
  - destruct (setup' (mark_used param)) as [st| | |] eqn:Es; cbn [bind];
      try discriminate.
    destruct (setup_inv _ _ Es) as (_ & _ & _ & Hp & _).
    unfold mark_used in Hp. cbn in Hp. unfold mark_used. cbn [test_c].
    destruct (Ascii.eqb_spec (test_c param) "y"%char) as [Hy|Hy].
    + intros Hc. apply check_param in Hc.
      destruct Hc as (H1 & H2 & H3 & H4 & H5). rewrite Hp in H1, H2, H3, H4.
      cbn in H1, H2, H3, H4.
      repeat split; try assumption; try discriminate;
        first [congruence | auto].
    + intros [= <- <-]. rewrite Hp. cbn.
      repeat split; try discriminate; first [congruence | auto].
  - intros [= <- <-]. cbn. repeat split; discriminate.
Qed.

End DriverFrame.

(** *** [testEVec] in real arithmetic *)

Section EVecReal.

Local Open Scope R_scope.

(** [a[i]] inside the array. *)
Definition elt (a : list R) (i : Z) : R := nth (Z.to_nat i) a 0.

Lemma load_elt (a : list R) (i : Z) :
  (0 <= i < Z.of_nat (List.length a))%Z -> load a i = Returned (elt a i).
Proof.
  intros H. unfold load, elt. destruct (Z.ltb_spec i 0); [lia|].
  rewrite (nth_error_nth' a 0) by lia. reflexivity.
Qed.

Lemma unit_square (s x lambda : R) :
  lambda <> 0 -> s = 1 \/ s = -1 ->
  (s * lambda * x * (1 / lambda)) * (s * lambda * x * (1 / lambda)) = x * x.
Proof. intros Hl [-> | ->]; field; assumption. Qed.

(** In real arithmetic [testEVec] returns 0 on an exact eigenpair, and also
    when [X] is an eigenvector for [-lambda]: with [s] 1 or -1 and
    [A X = s lambda X] row by row ([lambda] not 0, [n >= 2], arrays of [n],
    [n-1] and [n] elements), the two norms it compares are equal. *)
Theorem testEVec_eigenpair (n : Z) (diag offd X : list R) (lambda s : R) :
  (2 <= n)%Z ->
  List.length diag = Z.to_nat n ->
  List.length offd = Z.to_nat (n - 1) ->
  List.length X = Z.to_nat n ->
  lambda <> 0 -> s = 1 \/ s = -1 ->
  elt diag 0 * elt X 0 + elt offd 0 * elt X 1 = s * lambda * elt X 0 ->
  elt offd (n - 2) * elt X (n - 2) + elt diag (n - 1) * elt X (n - 1)
  = s * lambda * elt X (n - 1) ->
  (forall i, (1 <= i < n - 1)%Z ->
     elt offd (i - 1) * elt X (i - 1) + elt diag i * elt X i
     + elt offd i * elt X (i + 1) = s * lambda * elt X i) ->
  testEVec diag offd n X lambda = Returned 0.
Proof.
  intros Hn Hd Ho HX Hl Hs Hfirst Hlast Hmid. unfold testEVec.
  rewrite !load_elt by lia. cbn [bind].
  assert (Hloop : forall l a,
    (forall i, In i l -> (1 <= i < n - 1)%Z) ->
    exists b,
      foldM (fun i '(sumMM, sumVec) =>
               o1 <- load offd (i - 1) ;; xp <- load X (i - 1) ;;
               d <- load diag i ;; xi <- load X i ;;
               o2 <- load offd i ;; xn <- load X (i + 1) ;;
               let mmRes :=
                 fmul (fadd (fadd (fmul o1 xp) (fmul d xi)) (fmul o2 xn))
                      (fdiv (of_int 1) lambda) in
               vmRes <- load X i ;;
               Returned (fadd sumMM (fmul mmRes mmRes),
                         fadd sumVec (fmul vmRes vmRes)))
            l (a, a) = Returned (b, b)).
  { induction l as [|i l IH]; intros a Hin; cbn [foldM].
    - eauto.
    - assert (1 <= i < n - 1)%Z as Hi by (apply Hin; now left).
      rewrite !load_elt by lia. cbn [bind]. cbn -[elt].
      rewrite (Hmid i Hi), (unit_square s (elt X i) lambda Hl Hs).
      apply IH. intros j Hj. apply Hin. now right. }
  cbn -[elt foldM zrange]. cbn -[elt foldM zrange] in Hloop.
  rewrite Hfirst, Hlast, !(unit_square s _ lambda Hl Hs).
  match goal with
  | |- context [foldM _ ?l (?a, ?a)] => destruct (Hloop l a) as [b Hb]
  end.
  { intros i Hi. now apply in_zrange in Hi. }
  rewrite Hb. cbn [bind]. f_equal.
  replace (R_sqrt.sqrt b - R_sqrt.sqrt b) with 0 by ring. apply Rabs_R0.
Qed.

Lemma testEVec_eigenpair_witness :
  testEVec [1; 1] [1] 2 [1; 1] (-2) = Returned 0.
Proof.
  apply (testEVec_eigenpair 2 [1; 1] [1] [1; 1] (-2) (-1)).
  - lia.
  - reflexivity.
  - reflexivity.
  - reflexivity.
  - lra.
  - right. reflexivity.
  - vm_compute. lra.
  - vm_compute. lra.
  - intros i Hi. lia.
Defined.

End EVecReal.

(** *** Runs in binary64 that meet the conditions above *)

(** A solver that reports the eigenvalue 1.00000000005 of the matrix of
    order 2 with multiplicity 1 and a vector for it. *)
Definition close_solver (job : eigt_job) (n k : Z) (diag offd : list float)
    (vl vu : float) (il iu : Z) (pVal : list float) (pMul : list Z)
    (pVec : option (list float)) : solver_result float :=
  mk_solver_result 0 1 [1.00000000005; 0]%float [1; 0]
                   [0.7071103; 0.7071032]%float.

Definition close_setup : outcome (driver_state float) :=
  setup 0x1p-53%float (Some [0; 0]%float) (Some [0]%float)
        (Some [0; 0]%float) (Some [0; 0]%float) (Some [0; 0])
        (fun k => Some (repeat 0%float (Z.to_nat k))) 0%float 1%float
        close_solver (mark_used example_param).

(** A solver that counts one eigenvalue and reports no multiplicity. *)
Definition silent_solver (job : eigt_job) (n k : Z) (diag offd : list float)
    (vl vu : float) (il iu : Z) (pVal : list float) (pMul : list Z)
    (pVec : option (list float)) : solver_result float :=
  mk_solver_result 0 1 [1.5; 0]%float [0; 0] [1; 1]%float.

Definition silent_setup : outcome (driver_state float) :=
  setup 0x1p-53%float (Some [0; 0]%float) (Some [0]%float)
        (Some [0; 0]%float) (Some [0; 0]%float) (Some [0; 0])
        (fun k => Some (repeat 0%float (Z.to_nat k))) 0%float 1%float
        silent_solver (mark_used example_param).

Lemma kahan_order_0_witness :
  testMatrix_Kahan [] [] [] 0 1%float = Undefined
  /\ testMatrix_Kahan [9%float] [] [] 0 1%float
     = Returned ([1%float], [], []).
Proof.
  split.
  - apply (kahan_order_0 0 1%float [] [] []). discriminate.
  - apply (kahan_order_0 0 1%float [9%float] [] []). discriminate.
Defined.

Lemma kahan_antisymmetric_witness :
  exists d' o' e',
    testMatrix_Kahan [9; 9; 9]%float [9; 9]%float [9; 9; 9]%float 3 1%float
    = Returned (d', o', e')
    /\ forall i, 0 <= i < Z.quot 3 2 ->
         exists v, load e' (3 - 1 - i) = Returned v
                   /\ load e' i = Returned (fneg v).
Proof.
  apply (kahan_antisymmetric 3 1%float [9; 9; 9]%float [9; 9]%float
           [9; 9; 9]%float).
  - discriminate.
  - reflexivity.
  - reflexivity.
  - reflexivity.
Defined.

Lemma ceil_log2_loop_bracket_witness :
  exists i, ceil_log2_loop 1000 = Returned i
            /\ 1 <= i <= 31 /\ 2 ^ (i - 1) <= 1000 < 2 ^ i.
Proof.
  apply (ceil_log2_loop_bracket 1000). split; [discriminate|reflexivity].
Defined.

Lemma worst_loop_stops_at_m_witness :
  exists st w',
    example_setup = Returned st
    /\ worst_loop 3 st (mk_worst 0 1 0%float None 0 0 0) = Returned w'
    /\ evIdx w' = st_m st.
Proof.
  eexists. eexists.
  split; [vm_compute; reflexivity|].
  split; [vm_compute; reflexivity|].
  refine (worst_loop_stops_at_m _ 3 (mk_worst 0 1 0%float None 0 0 0) _ _ _).
  - discriminate.
  - vm_compute. reflexivity.
Defined.

Lemma check_zero_multiplicities_witness :
  exists st, silent_setup = Returned st /\ check st = Undefined.
Proof.
  eexists. split; [vm_compute; reflexivity|].
  apply check_zero_multiplicities.
  - intros [|[|[|k]]] v; cbn; intros [= <-]; discriminate.
  - discriminate.
Defined.

Lemma check_calls_witness :
  exists st p w e,
    close_setup = Returned st
    /\ check st = Returned (p, [0])
    /\ eigenvalue_errors st = Returned (w, e)
    /\ [0] = if fltb w (of_int 3) then zrange 0 (vectorsFound st) else [].
Proof.
  eexists. eexists.
  assert (H : forall st p, close_setup = Returned st ->
                           check st = Returned (p, [0]) ->
                           exists w e,
                             close_setup = Returned st
                             /\ check st = Returned (p, [0])
                             /\ eigenvalue_errors st = Returned (w, e)
                             /\ [0] = if fltb w (of_int 3)
                                      then zrange 0 (vectorsFound st)
                                      else []).
  { intros st p Hs Hc. destruct (check_calls st p [0] Hc) as (w & e & H1 & H2).
    exists w, e. repeat split; assumption. }
  apply H; vm_compute; reflexivity.
Defined.

Lemma setup_state_witness :
  exists st, example_setup = Returned st /\ 1 <= nEigVals st.
Proof.
  eexists. split; [vm_compute; reflexivity|].
  refine (proj1 (setup_state 0x1p-53%float (Some [0; 0]%float)
                   (Some [0]%float) (Some [0; 0]%float) (Some [0; 0]%float)
                   (Some [0; 0]) (fun k => Some (repeat 0%float (Z.to_nat k)))
                   0%float 1%float example_solver (mark_used example_param)
                   _ _)).
  vm_compute. reflexivity.
Defined.

Lemma test_zstevx2_frame_witness :
  exists p called,
    example_run = Returned (p, called)
    /\ dim_used p = true /\ dim_m p = 2.
Proof.
  eexists. eexists. split; [vm_compute; reflexivity|].
  assert (H := test_zstevx2_frame 0x1p-53%float (Some [0; 0]%float)
                 (Some [0]%float) (Some [0; 0]%float) (Some [0; 0]%float)
                 (Some [0; 0]) (fun k => Some (repeat 0%float (Z.to_nat k)))
                 0%float 1%float example_solver example_param true).
  split; [exact (proj1 (H _ _ ltac:(vm_compute; reflexivity)))|].
  exact (proj1 (proj2 (H _ _ ltac:(vm_compute; reflexivity)))).
Defined.

End Zstevx2.
